(** * A shallow embedding of the Synacor virtual machine (package [synacor])

    The machine of [synacor/machine.go]: 32768 words of memory, eight
    registers, an unbounded stack, a program counter, a run state and a
    buffer of pending input.  Go's [uint16] is modelled as [Z] with the
    wrap-around written out ([u16]); slices are lists, and an index or a
    slice expression out of range is a run-time panic, as is a division by
    zero.  The terminal is part of the state: [input] is what the
    [bufio.Reader] on standard input has not delivered yet, [stdout] is what
    has been printed so far; both are sequences of Unicode code points.

    After it come the loader of package [main], which turns the bytes of the
    image file into words, and the earlier form of the machine that the
    repository also holds ([SynacorOld]). *)

From Stdlib Require Import ZArith Lia String Ascii DecimalString.
From stdpp Require Import base numbers list.

Local Open Scope Z_scope.

Module Synacor.

(** ** Constants *)

Definition NREGS : Z := 8.
Definition MAX_15BIT : Z := 32767.
Definition OVERFLOW_15BIT : Z := 32768.
Definition MAX_REG : Z := MAX_15BIT + 8.

(** Arithmetic on [uint16] wraps around. *)
Definition u16 (x : Z) : Z := x mod 65536.

(** CPU states. *)
Inductive RunState : Set := RUNNING | HALTED | ERROR.

(** Instruction names, in the order of the [iota] block (HALT = 0 ... NOOP = 21). *)
Inductive opcode : Set :=
  | HALT | SET | PUSH | POP | EQ | GT | JMP | JT | JF | ADD | MULT | MOD
  | AND | OR | NOT | RMEM | WMEM | CALL | RET | OUT | IN | NOOP.

(** The instruction a word names, if any (the keys of the two tables and the
    labels of the [switch] in [Step]). *)
Definition opcode_of (w : Z) : option opcode :=
  match w with
  | 0 => Some HALT | 1 => Some SET | 2 => Some PUSH | 3 => Some POP
  | 4 => Some EQ | 5 => Some GT | 6 => Some JMP | 7 => Some JT
  | 8 => Some JF | 9 => Some ADD | 10 => Some MULT | 11 => Some MOD
  | 12 => Some AND | 13 => Some OR | 14 => Some NOT | 15 => Some RMEM
  | 16 => Some WMEM | 17 => Some CALL | 18 => Some RET | 19 => Some OUT
  | 20 => Some IN | 21 => Some NOOP
  | _ => None
  end.

Definition opcode_name (i : opcode) : string :=
  match i with
  | HALT => "HALT" | SET => "SET" | PUSH => "PUSH" | POP => "POP"
  | EQ => "EQ" | GT => "GT" | JMP => "JMP" | JT => "JT" | JF => "JF"
  | ADD => "ADD" | MULT => "MULT" | MOD => "MOD" | AND => "AND"
  | OR => "OR" | NOT => "NOT" | RMEM => "RMEM" | WMEM => "WMEM"
  | CALL => "CALL" | RET => "RET" | OUT => "OUT" | IN => "IN"
  | NOOP => "NOOP"
  end%string.

Definition opcode_args (i : opcode) : Z :=
  match i with
  | HALT => 0 | SET => 2 | PUSH => 1 | POP => 1 | EQ => 3 | GT => 3
  | JMP => 1 | JT => 2 | JF => 2 | ADD => 3 | MULT => 3 | MOD => 3
  | AND => 3 | OR => 3 | NOT => 2 | RMEM => 2 | WMEM => 2 | CALL => 1
  | RET => 0 | OUT => 1 | IN => 1 | NOOP => 0
  end.

(** [opsToString[int(op)]]: a Go map yields the zero value for a missing key. *)
Definition opsToString (op : Z) : string :=
  match opcode_of op with Some i => opcode_name i | None => EmptyString end.

(** [argsForOp[int(op)]]: the number of arguments expected for each OP. *)
Definition argsForOp (op : Z) : Z :=
  match opcode_of op with Some i => opcode_args i | None => 0 end.

Definition isReg (arg : Z) : bool := (MAX_15BIT <? arg) && (arg <=? MAX_REG).

Definition isValue (arg : Z) : bool := arg <=? MAX_15BIT.

Definition decipherReg (arg : Z) : Z := u16 (u16 (arg - MAX_15BIT) - 1).

(** ** The stack

    The struct has the single field [data]; the top of the stack is the last
    element of the slice. *)

Definition Stack : Type := list Z.

Definition NewStack : Stack := [].

Definition Push (v : Z) (s : Stack) : Stack := s ++ [v].

Definition IsEmpty (s : Stack) : bool := bool_decide (length s = 0%nat).

(** [Pop] returns the value, the flag and the stack it leaves. *)
Definition Pop (s : Stack) : Z * bool * Stack :=
  if IsEmpty s then (0, false, s)
  else
    let idx := (length s - 1)%nat in
    (nth idx s 0, true, take idx s).

(** ** The machine *)

Record Machine : Type := mkMachine {
  memory : list Z;
  regs : list Z;
  pc : Z;
  stack : Stack;
  state : RunState;
  input : list Z;          (* code points still to come on standard input *)
  unused_input : list Z;   (* available input *)
  stdout : list Z          (* code points printed so far *)
}.

Definition set_memory (x : list Z) (m : Machine) : Machine :=
  mkMachine x (regs m) (pc m) (stack m) (state m) (input m) (unused_input m) (stdout m).
Definition set_regs (x : list Z) (m : Machine) : Machine :=
  mkMachine (memory m) x (pc m) (stack m) (state m) (input m) (unused_input m) (stdout m).
Definition set_pc (x : Z) (m : Machine) : Machine :=
  mkMachine (memory m) (regs m) x (stack m) (state m) (input m) (unused_input m) (stdout m).
Definition set_stack (x : Stack) (m : Machine) : Machine :=
  mkMachine (memory m) (regs m) (pc m) x (state m) (input m) (unused_input m) (stdout m).
Definition set_state (x : RunState) (m : Machine) : Machine :=
  mkMachine (memory m) (regs m) (pc m) (stack m) x (input m) (unused_input m) (stdout m).
Definition set_input (x : list Z) (m : Machine) : Machine :=
  mkMachine (memory m) (regs m) (pc m) (stack m) (state m) x (unused_input m) (stdout m).
Definition set_unused_input (x : list Z) (m : Machine) : Machine :=
  mkMachine (memory m) (regs m) (pc m) (stack m) (state m) (input m) x (stdout m).
Definition set_stdout (x : list Z) (m : Machine) : Machine :=
  mkMachine (memory m) (regs m) (pc m) (stack m) (state m) (input m) (unused_input m) x.

(** [make([]uint16, 32768)] followed by [copy(m.memory, prog)]: the image
    overwrites the first [min (len prog) 32768] cells, unreduced. *)
Definition NewMachine (prog : list Z) (stdin : list Z) : Machine :=
  let n := Z.to_nat 32768 in
  {| memory := take n prog ++ replicate (n - length prog) 0;
     regs := replicate (Z.to_nat NREGS) 0;
     pc := 0;
     stack := NewStack;
     state := RUNNING;
     input := stdin;
     unused_input := [];
     stdout := [] |}.

Definition Halted (m : Machine) : bool :=
  match state m with RUNNING => false | _ => true end.

(** ** Run-time panics and the monad of machine actions *)

Inductive panic : Set :=
  | IndexOutOfRange
  | SliceBoundsOutOfRange
  | IntegerDivideByZero.

Inductive result (A : Type) : Type :=
  | Done (a : A)
  | Panic (p : panic).
Arguments Done {A} a.
Arguments Panic {A} p.

Definition M (A : Type) : Type := Machine -> result (A * Machine).

Definition ret {A} (a : A) : M A := fun m => Done (a, m).

Definition bind {A B} (c : M A) (k : A -> M B) : M B :=
  fun m => match c m with
           | Done (a, m') => k a m'
           | Panic p => Panic p
           end.

Definition throw {A} (p : panic) : M A := fun _ => Panic p.

Definition gets {A} (f : Machine -> A) : M A := fun m => Done (f m, m).

Definition modify (f : Machine -> Machine) : M unit := fun m => Done (tt, f m).

Declare Scope machine_scope.
Delimit Scope machine_scope with machine.
Notation "x <- c ;; k" := (bind c (fun x => k))
  (at level 100, c at next level, right associativity) : machine_scope.
Notation "c ;; k" := (bind c (fun _ => k))
  (at level 100, right associativity) : machine_scope.
Local Open Scope machine_scope.

(** [l[i]] for a [uint16] index. *)
Definition index (l : list Z) (i : Z) : M Z :=
  match l !! Z.to_nat i with
  | Some v => ret v
  | None => throw IndexOutOfRange
  end.

(** [l[lo:hi]]; the capacity of every slice cut here equals its length. *)
Definition slice (l : list Z) (lo hi : Z) : M (list Z) :=
  if (lo <=? hi) && (hi <=? Z.of_nat (length l))
  then ret (take (Z.to_nat (hi - lo)) (drop (Z.to_nat lo) l))
  else throw SliceBoundsOutOfRange.

(** [m.memory[i] = v] and [m.regs[i] = v], once [i] and [v] are evaluated. *)
Definition storeMem (i v : Z) : M unit :=
  mem <- gets memory ;;
  if bool_decide (Z.to_nat i < length mem)%nat
  then modify (set_memory (<[Z.to_nat i := v]> mem))
  else throw IndexOutOfRange.

Definition storeReg (i v : Z) : M unit :=
  r <- gets regs ;;
  if bool_decide (Z.to_nat i < length r)%nat
  then modify (set_regs (<[Z.to_nat i := v]> r))
  else throw IndexOutOfRange.

(** ** Terminal *)

Definition runes (s : string) : list Z :=
  map (fun a => Z.of_N (N_of_ascii a)) (list_ascii_of_string s).

(** [fmt.Println(msg)]. *)
Definition Println (msg : string) : M unit :=
  modify (fun m => set_stdout (stdout m ++ runes msg ++ [10]) m).

(** [fmt.Printf(s)] for a format without verbs. *)
Definition Printf (s : string) : M unit :=
  modify (fun m => set_stdout (stdout m ++ runes s) m).

(** What [%c] prints for an integer [v]: the character with code point [v],
    and U+FFFD in place of a surrogate half. *)
Definition fmtC (v : Z) : Z :=
  if (55296 <=? v) && (v <=? 57343) then 65533 else v.

(** [fmt.Printf("%c", v)]. *)
Definition Printf_c (v : Z) : M unit :=
  modify (fun m => set_stdout (stdout m ++ [fmtC v]) m).

(** [%d]. *)
Definition fmtD (v : Z) : string := NilZero.string_of_uint (N.to_uint (Z.to_N v)).

(** [%q] for a string that needs no escaping (the instruction names and the
    empty string). *)
Definition fmtQ (s : string) : string :=
  String (ascii_of_nat 34) (s ++ String (ascii_of_nat 34) EmptyString).

(** [bufio.Reader.ReadString(delim)]: everything up to and including the first
    [delim], or all that is left when there is none (the error is dropped by
    the caller).  Returns the line and the rest of the stream. *)
Fixpoint ReadString (delim : Z) (s : list Z) : list Z * list Z :=
  match s with
  | [] => ([], [])
  | c :: s' =>
      if c =? delim then ([c], s')
      else let '(l, r) := ReadString delim s' in (c :: l, r)
  end.

(** ** Machine methods *)

(** Log error and halt machine. *)
Definition Error (msg : string) : M unit :=
  Println msg ;;
  modify (set_state ERROR).

(** Halt machine. *)
Definition Halt : M unit := modify (set_state HALTED).

Definition invalid_argument (arg : Z) : string :=
  ("Invalid Argument '" ++ fmtD arg ++ "'.")%string.

Definition readArg (arg : Z) : M Z :=
  if isValue arg then ret arg
  else if isReg arg then
    r <- gets regs ;;
    index r (decipherReg arg)
  else
    Error (invalid_argument arg) ;;
    ret 0.

Definition getArgs (op : Z) : M (list Z) :=
  let n := argsForOp op in
  if 0 <? n then
    mem <- gets memory ;;
    p <- gets pc ;;
    slice mem (u16 (p + 1)) (u16 (u16 (p + 1) + n))
  else ret [].

(** Move over the OP and the number of args for the OP. *)
Definition nextProgramCounter (op : Z) (m : Machine) : Z :=
  u16 (u16 (pc m + 1) + argsForOp op).

(** [m.stack.Push(v)] and [m.stack.Pop()] on the machine's stack. *)
Definition stackPush (v : Z) : M unit :=
  modify (fun m => set_stack (Push v (stack m)) m).

Definition stackPop : M (Z * bool) :=
  s <- gets stack ;;
  let '(v, ok, s') := Pop s in
  modify (set_stack s') ;;
  ret (v, ok).

(** The block that ends the cases POP, EQ, GT, ADD, MULT, MOD, AND, OR and
    NOT:
    [if isReg(args[0]) { m.regs[decipherReg(args[0])] = v } else { m.memory[args[0]] = v }]. *)
Definition storeDest (args : list Z) (v : Z) : M unit :=
  a0 <- index args 0 ;;
  if isReg a0 then
    a0' <- index args 0 ;;
    storeReg (decipherReg a0') v
  else
    a0' <- index args 0 ;;
    storeMem a0' v.

(** [m.readArg(args[i])]. *)
Definition readArgAt (args : list Z) (i : Z) : M Z :=
  a <- index args i ;;
  readArg a.

(** The block that opens the case IN: when nothing is pending, prompt, read
    a line and append its characters, each converted to [uint16], to
    [unused_input]. *)
Definition refill : M unit :=
  buf <- gets unused_input ;;
  if bool_decide (length buf = 0%nat) then
    Printf "Input: " ;;
    s <- gets input ;;
    let '(line, rest) := ReadString 10 s in
    modify (set_input rest) ;;
    modify (fun m => set_unused_input (unused_input m ++ map u16 line) m)
  else ret tt.

(** How a case of the [switch] in [Step] ends: it falls out of the [switch],
    to the update of the program counter, or it returns from [Step]. *)
Inductive flow : Set := Next | Return.

Definition unimplemented (op : Z) : string :=
  ("UNIMPLEMENTED INSTRUCTION " ++ fmtQ (opsToString op)
     ++ "." ++ String (ascii_of_nat 10) (String (ascii_of_nat 10) EmptyString))%string.

(** The [switch op] of [Step]. *)
Definition execute (op : Z) (args : list Z) : M flow :=
  match opcode_of op with
  | Some HALT =>
      Halt ;;
      ret Return
  | Some SET =>
      a0 <- index args 0 ;;
      v <- readArgAt args 1 ;;
      storeReg (decipherReg a0) v ;;
      ret Next
  | Some PUSH =>
      v <- readArgAt args 0 ;;
      stackPush v ;;
      ret Next
  | Some POP =>
      r <- stackPop ;;
      let '(v, ok) := r in
      if negb ok then
        Error "Popped an empty stack." ;;
        ret Return
      else
        storeDest args v ;;
        ret Next
  | Some EQ =>
      b <- readArgAt args 1 ;;
      c <- readArgAt args 2 ;;
      let eq := if b =? c then 1 else 0 in
      storeDest args eq ;;
      ret Next
  | Some GT =>
      b <- readArgAt args 1 ;;
      c <- readArgAt args 2 ;;
      let gt := if b >? c then 1 else 0 in
      storeDest args gt ;;
      ret Next
  | Some JMP =>
      a <- readArgAt args 0 ;;
      modify (set_pc a) ;;
      ret Return
  | Some JT =>
      a <- readArgAt args 0 ;;
      if negb (a =? 0) then
        b <- readArgAt args 1 ;;
        modify (set_pc b) ;;
        ret Return
      else ret Next
  | Some JF =>
      a <- readArgAt args 0 ;;
      if a =? 0 then
        b <- readArgAt args 1 ;;
        modify (set_pc b) ;;
        ret Return
      else ret Next
  | Some ADD =>
      b <- readArgAt args 1 ;;
      c <- readArgAt args 2 ;;
      let a := u16 (b + c) mod OVERFLOW_15BIT in
      storeDest args a ;;
      ret Next
  | Some MULT =>
      b <- readArgAt args 1 ;;
      c <- readArgAt args 2 ;;
      let a := u16 (b * c) mod OVERFLOW_15BIT in
      storeDest args a ;;
      ret Next
  | Some MOD =>
      b <- readArgAt args 1 ;;
      c <- readArgAt args 2 ;;
      if c =? 0 then throw IntegerDivideByZero
      else
        let a := b mod c in
        storeDest args a ;;
        ret Next
  | Some AND =>
      b <- readArgAt args 1 ;;
      c <- readArgAt args 2 ;;
      let a := Z.land b c in
      storeDest args a ;;
      ret Next
  | Some OR =>
      b <- readArgAt args 1 ;;
      c <- readArgAt args 2 ;;
      let a := Z.lor b c in
      storeDest args a ;;
      ret Next
  | Some NOT =>
      b <- readArgAt args 1 ;;
      let a := Z.lxor b MAX_15BIT in
      storeDest args a ;;
      ret Next
  | Some RMEM =>
      a0 <- index args 0 ;;
      addr <- readArgAt args 1 ;;
      mem <- gets memory ;;
      v <- index mem addr ;;
      storeReg (decipherReg a0) v ;;
      ret Next
  | Some WMEM =>
      addr <- readArgAt args 0 ;;
      v <- readArgAt args 1 ;;
      storeMem addr v ;;
      ret Next
  | Some CALL =>
      npc <- gets (nextProgramCounter op) ;;
      stackPush npc ;;
      a <- readArgAt args 0 ;;
      modify (set_pc a) ;;
      ret Return
  | Some RET =>
      r <- stackPop ;;
      let '(npc, ok) := r in
      (if ok then modify (set_pc npc)
       else Error "Popped an empty stack.") ;;
      ret Return
  | Some OUT =>
      v <- readArgAt args 0 ;;
      Printf_c v ;;
      ret Next
  | Some IN =>
      refill ;;
      a0 <- index args 0 ;;
      (if isReg a0 then
         a0' <- index args 0 ;;
         buf' <- gets unused_input ;;
         c <- index buf' 0 ;;
         storeReg (decipherReg a0') c
       else
         addr <- readArgAt args 0 ;;
         buf' <- gets unused_input ;;
         c <- index buf' 0 ;;
         storeMem addr c) ;;
      modify (fun m => set_unused_input (drop 1 (unused_input m)) m) ;;
      ret Next
  | Some NOOP =>
      ret Next
  | None =>
      Error (unimplemented op) ;;
      ret Next
  end.

(** The first two statements of [Step]: the instruction word at [pc] and its
    argument words. *)
Definition fetch : M (Z * list Z) :=
  mem <- gets memory ;;
  p <- gets pc ;;
  op <- index mem p ;;
  args <- getArgs op ;;
  ret (op, args).

(** The last statement of [Step]: [m.pc = m.nextProgramCounter(op)]. *)
Definition advance (op : Z) : M unit :=
  modify (fun m => set_pc (nextProgramCounter op m) m).

Definition Step : M unit :=
  i <- fetch ;;
  let '(op, args) := i in
  f <- execute op args ;;
  match f with
  | Return => ret tt
  | Next => advance op
  end.

(** [Run] is a loop without a bound; [fuel] bounds the number of steps, and
    [None] reports that it was used up with the machine still running. *)
Fixpoint Run (fuel : nat) (m : Machine) : result (option Machine) :=
  if Halted m then Done (Some m)
  else
    match fuel with
    | O => Done None
    | S fuel' =>
        match Step m with
        | Done (_, m') => Run fuel' m'
        | Panic p => Panic p
        end
    end.

(** The states [Run] goes through from a fresh machine. *)
Inductive reachable (prog stdin : list Z) : Machine -> Prop :=
  | reach_new : reachable prog stdin (NewMachine prog stdin)
  | reach_step m u m' :
      reachable prog stdin m ->
      Halted m = false ->
      Step m = Done (u, m') ->
      reachable prog stdin m'.

End Synacor.

(** * The loader (package [main])

    [main] reads the file named on the command line and turns its bytes into
    the words of the image, two bytes to a word, low byte first; then it
    builds the machine and runs it.  The flag and the reading of the file
    are left out: the model starts from the bytes read. *)

Module Loader.
Import Synacor.

(** A [[]byte]: the bytes of the backing array from the first element of the
    slice up to its capacity, and the length of the slice. *)
Record Bytes : Type := mkBytes {
  backing : list Byte.byte;
  blen : Z
}.

Definition capacity (bin : Bytes) : Z := Z.of_nat (length (backing bin)).

(** [uint16(b)] for a byte. *)
Definition byteZ (b : Byte.byte) : Z := Z.of_N (Byte.to_N b).

(** [bin[lo:hi]]: the bounds are checked against the capacity. *)
Definition sliceBytes (bin : Bytes) (lo hi : Z) : result Bytes :=
  if (0 <=? lo) && (lo <=? hi) && (hi <=? capacity bin)
  then Done (mkBytes (drop (Z.to_nat lo) (backing bin)) (hi - lo))
  else Panic SliceBoundsOutOfRange.

(** [binary.LittleEndian.Uint16(b)], that is
    [_ = b[1]; return uint16(b[0]) | uint16(b[1])<<8]. *)
Definition Uint16 (b : Bytes) : result Z :=
  if 1 <? blen b then
    match backing b with
    | b0 :: b1 :: _ => Done (Z.lor (byteZ b0) (u16 (Z.shiftl (byteZ b1) 8)))
    | _ => Panic IndexOutOfRange
    end
  else Panic IndexOutOfRange.

(** The loop of [main], from index [i] with the words [prog] gathered so
    far.  The condition is [i <= len(bin)] in main.go as it first was
    ([inclusive]) and [i < len(bin)] in the later one.  [fuel] bounds the
    number of rounds, [None] reports that it was used up. *)
Fixpoint words (inclusive : bool) (fuel : nat) (bin : Bytes) (i : Z)
    (prog : list Z) : result (option (list Z)) :=
  if (if inclusive then i <=? blen bin else i <? blen bin) then
    match fuel with
    | O => Done None
    | S fuel' =>
        match sliceBytes bin i (i + 2) with
        | Panic p => Panic p
        | Done b =>
            match Uint16 b with
            | Panic p => Panic p
            | Done val => words inclusive fuel' bin (i + 2) (prog ++ [val])
            end
        end
    end
  else Done (Some prog).

(** [main] once the file is read: the words, the machine, the run.  The
    loop takes at most one round for every two bytes and one more. *)
Definition main (inclusive : bool) (fuel : nat) (bin : Bytes)
    (stdin : list Z) : result (option Machine) :=
  match words inclusive (S (Z.to_nat (blen bin))) bin 0 [] with
  | Panic p => Panic p
  | Done None => Done None
  | Done (Some prog) => Run fuel (NewMachine prog stdin)
  end.

(** The words a sequence of bytes spells, low byte first; a last byte
    without a partner spells nothing. *)
Fixpoint le_pairs (l : list Byte.byte) : list Z :=
  match l with
  | lo :: hi :: rest => (byteZ lo + 256 * byteZ hi) :: le_pairs rest
  | _ => []
  end.

End Loader.

(** * The earlier machine

    The file holds a second, earlier package [synacor] with the same
    constants and tables: a stack that keeps its own length, a first form of
    operand resolution, and a [Step] that knows HALT, OUT and NOOP. *)

Module SynacorOld.
Import Synacor.

Record Stack : Type := mkStack {
  data : list Z;
  len : Z
}.

Definition NewStack : Stack := mkStack [] 0.

Definition Push (v : Z) (s : Stack) : Stack :=
  mkStack (data s ++ [v]) (len s + 1).

(** [v := s.data[s.len-1]; s.data = s.data[:s.len-2]; s.len -= 1; return v].
    Once the index [s.len-1] is known to be inside the slice, the upper
    bound [s.len-2] is below its length, hence within its capacity; only a
    negative bound is left to check. *)
Definition Pop (s : Stack) : result (Z * Stack) :=
  if (0 <=? len s - 1) && (len s - 1 <? Z.of_nat (length (data s))) then
    let v := nth (Z.to_nat (len s - 1)) (data s) 0 in
    if 0 <=? len s - 2 then
      Done (v, mkStack (take (Z.to_nat (len s - 2)) (data s)) (len s - 1))
    else Panic SliceBoundsOutOfRange
  else Panic IndexOutOfRange.

Record Machine : Type := mkMachine {
  memory : list Z;
  regs : list Z;
  pc : Z;
  stack : Stack;
  state : RunState;
  stdout : list Z          (* code points printed so far *)
}.

Definition NewMachine (prog : list Z) : Machine :=
  let n := Z.to_nat 32768 in
  {| memory := take n prog ++ replicate (n - length prog) 0;
     regs := replicate (Z.to_nat NREGS) 0;
     pc := 0;
     stack := NewStack;
     state := RUNNING;
     stdout := [] |}.

Definition Halted (m : Machine) : bool :=
  match state m with HALTED => true | _ => false end.

(** The value and the error, [None] for [nil]. *)
Definition maybeIndirectArgs (arg : Z) (m : Machine)
    : result (Z * option string) :=
  if arg <? MAX_15BIT then Done (arg, None)
  else if arg <=? MAX_REG then
    match regs m !! Z.to_nat (u16 (MAX_REG - arg)) with
    | Some v => Done (v, None)
    | None => Panic IndexOutOfRange
    end
  else Done (0, Some "Invalid argument"%string).

(** The [n] of [getArgs]. *)
Definition argCount (op : Z) : nat :=
  match opcode_of op with
  | Some (IN | OUT | JMP) => 1
  | Some (JT | JF | SET) => 2
  | _ => 0
  end.

(** The loop [for i := 1; i <= n; i++] of [getArgs], with [count] rounds to
    go. *)
Fixpoint getArgsFrom (m : Machine) (i : Z) (count : nat) (args : list Z)
    : result (list Z) :=
  match count with
  | O => Done args
  | S count' =>
      match memory m !! Z.to_nat (u16 (pc m + u16 i)) with
      | Some w => getArgsFrom m (i + 1) count' (args ++ [w])
      | None => Panic IndexOutOfRange
      end
  end.

Definition getArgs (op : Z) (m : Machine) : result (list Z) :=
  getArgsFrom m 1 (argCount op) [].

Definition set_pc (x : Z) (m : Machine) : Machine :=
  mkMachine (memory m) (regs m) x (stack m) (state m) (stdout m).
Definition set_state (x : RunState) (m : Machine) : Machine :=
  mkMachine (memory m) (regs m) (pc m) (stack m) x (stdout m).
Definition set_stdout (x : list Z) (m : Machine) : Machine :=
  mkMachine (memory m) (regs m) (pc m) (stack m) (state m) x.

Definition updateProgramCounter (op : Z) (m : Machine) : Machine :=
  let n :=
    match opcode_of op with
    | Some (HALT | NOOP) => 0
    | Some (PUSH | POP | OUT | IN) => 1
    | Some (SET | JT | JF) => 2
    | _ => 0
    end in
  set_pc (u16 (pc m + u16 (1 + n))) m.

Definition Halt (m : Machine) : Machine := set_state HALTED m.

Definition Error (msg : string) (m : Machine) : Machine :=
  Halt (set_stdout (stdout m ++ runes msg ++ [10]) m).

Definition unimplemented (op : Z) : string :=
  ("UNIMPLEMENTED INSTRUCTION: " ++ fmtQ (opsToString op)
     ++ String (ascii_of_nat 10) EmptyString)%string.

Definition Step (m : Machine) : result Machine :=
  match memory m !! Z.to_nat (pc m) with
  | None => Panic IndexOutOfRange
  | Some op =>
      match getArgs op m with
      | Panic p => Panic p
      | Done args =>
          match opcode_of op with
          | Some HALT => Done (Halt m)
          | Some OUT =>
              match args !! 0%nat with
              | Some a =>
                  Done (updateProgramCounter op
                          (set_stdout (stdout m ++ [fmtC a]) m))
              | None => Panic IndexOutOfRange
              end
          | Some NOOP => Done (updateProgramCounter op m)
          | _ =>
              Done (set_state HALTED
                      (set_stdout (stdout m ++ runes (unimplemented op)) m))
          end
      end
  end.

Fixpoint Run (fuel : nat) (m : Machine) : result (option Machine) :=
  if Halted m then Done (Some m)
  else
    match fuel with
    | O => Done None
    | S fuel' =>
        match Step m with
        | Done m' => Run fuel' m'
        | Panic p => Panic p
        end
    end.

End SynacorOld.

(** * Properties *)

Module SynacorFacts.
Import Synacor.
Local Open Scope machine_scope.

(** ** Notions the statements use *)

(** What [Error msg] makes of a machine. *)
Definition errored (msg : string) (m : Machine) : Machine :=
  set_state ERROR (set_stdout (stdout m ++ runes msg ++ [10]) m).

(** What the machine prints when it pops an empty stack. *)
Definition popped_empty : list Z := runes "Popped an empty stack." ++ [10].

(** A [uint16]. *)
Definition is_u16 (v : Z) : Prop := 0 <= v < 65536.

(** The shape of a machine, which [NewMachine] sets up and [Step] keeps:
    32768 cells, eight registers, and a [uint16] in every cell, in every
    register, on the stack, in the buffer and in the program counter. *)
Record wf (m : Machine) : Prop := {
  wf_memory : length (memory m) = Z.to_nat 32768;
  wf_regs : length (regs m) = Z.to_nat NREGS;
  wf_pc : is_u16 (pc m);
  wf_words : Forall is_u16 (memory m);
  wf_reg_words : Forall is_u16 (regs m);
  wf_stack : Forall is_u16 (stack m);
  wf_unused : Forall is_u16 (unused_input m)
}.

(** The state in which IN goes on after a refill of the empty buffer. *)
Definition refilled (m : Machine) : Machine :=
  let '(line, rest) := ReadString 10 (input m) in
  set_unused_input (unused_input m ++ map u16 line)
    (set_input rest (set_stdout (stdout m ++ runes "Input: ") m)).

(** The operands an instruction hands to [readArg] whatever their value
    (JT and JF read their second operand only when they jump; IN reads its
    operand unless it names a register). *)
Definition reads (i : opcode) (k : nat) : bool :=
  match i, k with
  | SET, 1 | NOT, 1 | RMEM, 1 => true
  | PUSH, 0 | JMP, 0 | JT, 0 | JF, 0 | CALL, 0 | OUT, 0 | IN, 0 => true
  | WMEM, 0 | WMEM, 1 => true
  | (EQ | GT | ADD | MULT | MOD | AND | OR), (1 | 2) => true
  | _, _ => false
  end%nat.

(** A value in the range of the architecture. *)
Definition in15 (v : Z) : Prop := 0 <= v <= 32767.

(** The registers, the stack and the input, pending and to come, hold values
    in range.  The memory is left out: the words of an image that name
    registers are above 32767. *)
Record ranged (m : Machine) : Prop := {
  ranged_regs : Forall in15 (regs m);
  ranged_stack : Forall in15 (stack m);
  ranged_unused : Forall in15 (unused_input m);
  ranged_input : Forall in15 (input m)
}.

(** From [l] to [l'], every cell that has changed holds a value in range. *)
Definition stores_in15 (l l' : list Z) : Prop :=
  forall i v, l' !! i = Some v -> l !! i = Some v \/ in15 v.

(** The instructions that end with the block [storeDest]. *)
Definition writes_dest (i : opcode) : bool :=
  match i with
  | POP | EQ | GT | ADD | MULT | MOD | AND | OR | NOT => true
  | _ => false
  end.

(** The statements of [Step] that follow the fetch, for the instruction
    word [op] and the operand words [args]: the [switch], and the update of
    the program counter unless the case has returned. *)
Definition carry_out (op : Z) (args : list Z) : M unit :=
  f <- execute op args ;;
  match f with
  | Return => ret tt
  | Next => advance op
  end.

(** Two machines that differ at most in what has been reported, the run
    state and the output: memory, registers, stack, program counter and
    input, pending and to come, are the same. *)
Definition same_effect (m1 m2 : Machine) : Prop :=
  memory m1 = memory m2 /\ regs m1 = regs m2 /\ stack m1 = stack m2
  /\ pc m1 = pc m2 /\ input m1 = input m2
  /\ unused_input m1 = unused_input m2.

(** Two outcomes that are the same up to what has been reported. *)
Definition same_outcome {A} (r1 r2 : result (A * Machine)) : Prop :=
  match r1, r2 with
  | Done (a, m1), Done (b, m2) => a = b /\ same_effect m1 m2
  | Panic p, Panic q => p = q
  | _, _ => False
  end.

(** Two actions that do the same, up to what has been reported, from states
    that are the same up to what has been reported. *)
Definition alike {A} (c1 c2 : M A) : Prop :=
  forall m1 m2, same_effect m1 m2 -> same_outcome (c1 m1) (c2 m2).

(** What the cases EQ, GT, ADD, MULT, MOD, AND and OR of [Step] compute from
    the values [b] and [c] read for the second and the third operand. *)
Definition result_of (i : opcode) (b c : Z) : Z :=
  match i with
  | EQ => if b =? c then 1 else 0
  | GT => if b >? c then 1 else 0
  | ADD => u16 (b + c) mod OVERFLOW_15BIT
  | MULT => u16 (b * c) mod OVERFLOW_15BIT
  | MOD => b mod c
  | AND => Z.land b c
  | OR => Z.lor b c
  | _ => 0
  end.

(** The instruction the program counter points at, when it points at one. *)
Definition instr_at (m : Machine) : option opcode :=
  match memory m !! Z.to_nat (pc m) with
  | Some w => opcode_of w
  | None => None
  end.

(** The instructions with a case that assigns to [m.memory]. *)
Definition writes_memory (i : opcode) : bool :=
  match i with
  | POP | EQ | GT | ADD | MULT | MOD | AND | OR | NOT | WMEM | IN => true
  | _ => false
  end.

(** The instructions with a case that assigns to [m.regs]. *)
Definition writes_regs (i : opcode) : bool :=
  match i with
  | SET | POP | EQ | GT | ADD | MULT | MOD | AND | OR | NOT | RMEM | IN => true
  | _ => false
  end.

(** The instructions with a case that returns from [Step] before the program
    counter is moved past the instruction. *)
Definition transfers (i : opcode) : bool :=
  match i with
  | HALT | JMP | JT | JF | CALL | RET => true
  | _ => false
  end.

(** What an instruction does to the stack, from [m] to [m']. *)
Definition stack_effect (i : opcode) (m m' : Machine) : Prop :=
  match i with
  | PUSH | CALL => exists v, stack m' = stack m ++ [v]
  | POP | RET =>
      (stack m = [] /\ stack m' = [] /\ state m' = ERROR)
      \/ (exists v, stack m = stack m' ++ [v])
  | _ => stack m' = stack m
  end.

(** What the two machines have in common. *)
Definition view (m : Machine) : list Z * list Z * Z * RunState * list Z :=
  (memory m, regs m, pc m, state m, stdout m).

Definition view_old (m : SynacorOld.Machine)
    : list Z * list Z * Z * RunState * list Z :=
  (SynacorOld.memory m, SynacorOld.regs m, SynacorOld.pc m,
   SynacorOld.state m, SynacorOld.stdout m).

(** Popping as many times as the stack has elements. *)
Fixpoint pop_all (n : nat) (s : Stack) : list Z * Stack :=
  match n with
  | O => ([], s)
  | S n' =>
      let '(v, _, s') := Pop s in
      let '(vs, s'') := pop_all n' s' in
      (v :: vs, s'')
  end.

(** The condition of the loop of [main]. *)
Definition goes_on (inclusive : bool) (bin : Loader.Bytes) (i : Z) : bool :=
  if inclusive then i <=? Loader.blen bin else i <? Loader.blen bin.


(** ** Scenarios on a fresh machine *)

Lemma Error_eq msg m : Error msg m = Done (tt, errored msg m).
Proof. reflexivity. Qed.

(** NOOP then HALT: two steps, nothing printed, nothing stored. *)
Example noop_then_halt :
  Run 2 (NewMachine [21; 0] [])
    = Done (Some (set_state HALTED (set_pc 1 (NewMachine [21; 0] [])))).
Proof. reflexivity. Qed.

(** ADD register 0 := register 1 + 4, OUT register 0, HALT: the machine
    prints the character with code 4 and halts. *)
Example add_then_out :
  let m0 := NewMachine [9; 32768; 32769; 4; 19; 32768; 0] [] in
  Run 3 m0
    = Done (Some (set_state HALTED
                    (set_pc 6 (set_stdout [4]
                       (set_regs (<[0%nat := 4]> (regs m0)) m0))))).
Proof. reflexivity. Qed.

(** C1.  The image [[18]] (a lone RET) on a fresh machine, whose stack is
    empty: the step prints "Popped an empty stack." and leaves the machine in
    state ERROR, not HALTED; nothing else changes. *)
Theorem ret_on_empty_stack_is_error (stdin : list Z) :
  Step (NewMachine [18] stdin)
    = Done (tt, errored "Popped an empty stack." (NewMachine [18] stdin))
  /\ state (errored "Popped an empty stack." (NewMachine [18] stdin)) = ERROR
  /\ ERROR <> HALTED.
Proof. split; [ reflexivity | split; [ reflexivity | discriminate ] ]. Qed.

(** C8.  The image [[3; 32768]] (POP into register 0) on a fresh machine: the
    first step reports the empty stack and leaves the machine in state ERROR;
    the eight registers are still zero, and so is everything but the state
    and the message printed. *)
Theorem pop_on_empty_stack (stdin : list Z) :
  let m0 := NewMachine [3; 32768] stdin in
  Step m0 = Done (tt, errored "Popped an empty stack." m0)
  /\ state (errored "Popped an empty stack." m0) = ERROR
  /\ stdout (errored "Popped an empty stack." m0) = popped_empty
  /\ regs (errored "Popped an empty stack." m0) = [0; 0; 0; 0; 0; 0; 0; 0]
  /\ regs m0 = [0; 0; 0; 0; 0; 0; 0; 0].
Proof. repeat split. Qed.

(** ** Words and operands *)

Lemma u16_small x : 0 <= x < 65536 -> u16 x = x.
Proof. intros; unfold u16; apply Z.mod_small; lia. Qed.

Lemma u16_range x : 0 <= u16 x < 65536.
Proof. unfold u16; apply Z.mod_pos_bound; lia. Qed.

Lemma isValue_true a : isValue a = true <-> a <= 32767.
Proof. unfold isValue, MAX_15BIT; lia. Qed.

Lemma isReg_true a : isReg a = true <-> 32768 <= a <= 32775.
Proof. unfold isReg, MAX_REG, MAX_15BIT; lia. Qed.

Lemma isReg_false a : isReg a = false <-> a <= 32767 \/ 32776 <= a.
Proof. unfold isReg, MAX_REG, MAX_15BIT; lia. Qed.

Ltac u16_lia :=
  unfold decipherReg, nextProgramCounter, u16, MAX_15BIT, OVERFLOW_15BIT, MAX_REG, NREGS in *;
  Z.to_euclidean_division_equations; lia.

Lemma decipherReg_reg a : 32768 <= a < 65536 -> decipherReg a = a - 32768.
Proof. intros; u16_lia. Qed.

Lemma decipherReg_value a : 0 <= a <= 32767 -> decipherReg a = a + 32768.
Proof. intros; u16_lia. Qed.

Lemma decipherReg_range a : 0 <= decipherReg a < 65536.
Proof. u16_lia. Qed.

(** ** The shape of a machine *)

Lemma NewMachine_wf prog stdin :
  Forall is_u16 prog -> wf (NewMachine prog stdin).
Proof.
  intros Hprog.
  split; cbn [NewMachine memory regs pc stack unused_input NewStack].
  - rewrite length_app, length_take, length_replicate. lia.
  - apply length_replicate.
  - unfold is_u16; lia.
  - apply Forall_app. split.
    + apply Forall_take, Hprog.
    + apply Forall_replicate. unfold is_u16; lia.
  - apply Forall_replicate. unfold is_u16; lia.
  - constructor.
  - constructor.
Qed.

(** The words of a literal image are 16-bit words. *)
Ltac words :=
  repeat (constructor; [ unfold is_u16; lia | ]); constructor.

(** ** Running the monad forwards and backwards *)

Lemma bind_eq {A B} (c : M A) (k : A -> M B) m a m1 :
  c m = Done (a, m1) -> bind c k m = k a m1.
Proof. unfold bind; intros ->; reflexivity. Qed.

Lemma bind_panic {A B} (c : M A) (k : A -> M B) m p :
  c m = Panic p -> bind c k m = Panic p.
Proof. unfold bind; intros ->; reflexivity. Qed.

Lemma bind_Done {A B} (c : M A) (k : A -> M B) m r :
  bind c k m = Done r -> exists a m1, c m = Done (a, m1) /\ k a m1 = Done r.
Proof.
  unfold bind; destruct (c m) as [[a m1]|p]; [ eauto | discriminate ].
Qed.

Lemma bind_bind {A B C} (c : M A) (k : A -> M B) (k' : B -> M C) m :
  bind (bind c k) k' m = bind c (fun a => bind (k a) k') m.
Proof. unfold bind; destruct (c m) as [[a m1]|p]; reflexivity. Qed.

Lemma bind_ret {A B} (a : A) (k : A -> M B) m : bind (ret a) k m = k a m.
Proof. reflexivity. Qed.

Lemma bind_gets {A B} (f : Machine -> A) (k : A -> M B) m :
  bind (gets f) k m = k (f m) m.
Proof. reflexivity. Qed.

Lemma bind_modify {B} (f : Machine -> Machine) (k : unit -> M B) m :
  bind (modify f) k m = k tt (f m).
Proof. reflexivity. Qed.

Lemma bind_throw {A B} (p : panic) (k : A -> M B) m :
  bind (throw p) k m = Panic p.
Proof. reflexivity. Qed.

Lemma bind_ext {A B} (c : M A) (k k' : A -> M B) m :
  (forall a m1, k a m1 = k' a m1) -> bind c k m = bind c k' m.
Proof. intros H; unfold bind; destruct (c m) as [[a m1]|p]; auto. Qed.

(** Running the plumbing forwards. *)
Ltac run :=
  repeat first
    [ rewrite bind_bind | rewrite bind_ret | rewrite bind_gets
    | rewrite bind_modify | rewrite bind_throw ];
  cbv beta.

Lemma index_eq l i v m : l !! Z.to_nat i = Some v -> index l i m = Done (v, m).
Proof. unfold index; intros ->; reflexivity. Qed.

Lemma index_Done l i m v m1 :
  index l i m = Done (v, m1) -> l !! Z.to_nat i = Some v /\ m1 = m.
Proof.
  unfold index; destruct (l !! Z.to_nat i); cbn; intros H; inversion H; auto.
Qed.

Lemma index_panic l i m :
  l !! Z.to_nat i = None -> index l i m = Panic IndexOutOfRange.
Proof. unfold index; intros ->; reflexivity. Qed.

Lemma storeReg_eq i v m :
  (Z.to_nat i < length (regs m))%nat ->
  storeReg i v m = Done (tt, set_regs (<[Z.to_nat i := v]> (regs m)) m).
Proof.
  intros H; unfold storeReg, bind, gets. rewrite bool_decide_eq_true_2 by exact H.
  reflexivity.
Qed.

Lemma storeReg_panic i v m :
  (length (regs m) <= Z.to_nat i)%nat -> storeReg i v m = Panic IndexOutOfRange.
Proof.
  intros H; unfold storeReg, bind, gets. rewrite bool_decide_eq_false_2 by lia.
  reflexivity.
Qed.

Lemma storeMem_eq i v m :
  (Z.to_nat i < length (memory m))%nat ->
  storeMem i v m = Done (tt, set_memory (<[Z.to_nat i := v]> (memory m)) m).
Proof.
  intros H; unfold storeMem, bind, gets. rewrite bool_decide_eq_true_2 by exact H.
  reflexivity.
Qed.

Lemma storeMem_panic i v m :
  (length (memory m) <= Z.to_nat i)%nat -> storeMem i v m = Panic IndexOutOfRange.
Proof.
  intros H; unfold storeMem, bind, gets. rewrite bool_decide_eq_false_2 by lia.
  reflexivity.
Qed.

Lemma storeReg_Done i v m u m1 :
  storeReg i v m = Done (u, m1) ->
  (Z.to_nat i < length (regs m))%nat
  /\ m1 = set_regs (<[Z.to_nat i := v]> (regs m)) m.
Proof.
  destruct (decide (Z.to_nat i < length (regs m))%nat) as [H|H].
  - rewrite storeReg_eq by exact H. intros E; inversion E; auto.
  - rewrite storeReg_panic by lia. discriminate.
Qed.

Lemma storeMem_Done i v m u m1 :
  storeMem i v m = Done (u, m1) ->
  (Z.to_nat i < length (memory m))%nat
  /\ m1 = set_memory (<[Z.to_nat i := v]> (memory m)) m.
Proof.
  destruct (decide (Z.to_nat i < length (memory m))%nat) as [H|H].
  - rewrite storeMem_eq by exact H. intros E; inversion E; auto.
  - rewrite storeMem_panic by lia. discriminate.
Qed.

(** The three ways [readArg] goes. *)
Lemma readArg_value a m : a <= 32767 -> readArg a m = Done (a, m).
Proof.
  intros H; unfold readArg. rewrite (proj2 (isValue_true a) H). reflexivity.
Qed.

Lemma readArg_reg a m :
  32768 <= a <= 32775 -> readArg a m = index (regs m) (decipherReg a) m.
Proof.
  intros H; unfold readArg.
  replace (isValue a) with false by (symmetry; unfold isValue, MAX_15BIT; lia).
  rewrite (proj2 (isReg_true a) H). reflexivity.
Qed.

Lemma readArg_invalid a m :
  32776 <= a -> readArg a m = Done (0, errored (invalid_argument a) m).
Proof.
  intros H; unfold readArg.
  replace (isValue a) with false by (symmetry; unfold isValue, MAX_15BIT; lia).
  replace (isReg a) with false by (symmetry; apply isReg_false; lia).
  reflexivity.
Qed.

Lemma readArg_Done a m v m1 :
  readArg a m = Done (v, m1) ->
  (a <= 32767 /\ v = a /\ m1 = m)
  \/ (32768 <= a <= 32775
      /\ regs m !! Z.to_nat (decipherReg a) = Some v /\ m1 = m)
  \/ (32776 <= a /\ v = 0 /\ m1 = errored (invalid_argument a) m).
Proof.
  destruct (Z_le_gt_dec a 32767) as [H|H].
  - rewrite readArg_value by exact H. intros E; inversion E; subst.
    left; auto.
  - destruct (Z_le_gt_dec a 32775) as [H'|H'].
    + rewrite readArg_reg by lia. intros [E ->]%index_Done. right; left.
      split; [ lia | auto ].
    + rewrite readArg_invalid by lia. intros E; inversion E.
      right; right. split; [ lia | auto ].
Qed.

(** A valid operand is read without a panic and without a change of state. *)
Lemma readArg_valid a m :
  length (regs m) = Z.to_nat NREGS -> 0 <= a <= 32775 ->
  exists v, readArg a m = Done (v, m)
    /\ (a <= 32767 -> v = a)
    /\ (32768 <= a -> regs m !! Z.to_nat (a - 32768) = Some v).
Proof.
  intros Hr Ha. destruct (Z_le_gt_dec a 32767) as [H|H].
  - exists a. rewrite readArg_value by exact H.
    split; [ reflexivity | split; [ auto | lia ] ].
  - rewrite readArg_reg by lia. rewrite decipherReg_reg by lia.
    destruct (lookup_lt_is_Some_2 (regs m) (Z.to_nat (a - 32768))) as [v Hv].
    { rewrite Hr; unfold NREGS; lia. }
    exists v. rewrite (index_eq _ _ _ _ Hv).
    split; [ reflexivity | split; [ lia | auto ] ].
Qed.

(** ** Fetching *)

Lemma argsForOp_range op : 0 <= argsForOp op <= 3.
Proof. unfold argsForOp; destruct (opcode_of op) as [[]|]; cbn; lia. Qed.

Lemma slice_Done l lo hi m r m1 :
  slice l lo hi m = Done (r, m1) ->
  lo <= hi <= Z.of_nat (length l)
  /\ r = take (Z.to_nat (hi - lo)) (drop (Z.to_nat lo) l) /\ m1 = m.
Proof.
  unfold slice.
  destruct (Z.leb_spec lo hi); destruct (Z.leb_spec hi (Z.of_nat (length l)));
    cbn; intros E; inversion E; auto.
Qed.

(** Inversion of a run that ended in [Done]: one layer of plumbing at a
    time; calls of the machine's own methods are left for their lemmas. *)
Ltac exec1 :=
  match goal with
  | H : bind _ _ _ = Done _ |- _ =>
      let a := fresh "a" in
      let m := fresh "m" in
      let E := fresh "E" in
      apply bind_Done in H as (a & m & E & H); cbv beta iota zeta in E, H
  | H : ret _ _ = Done _ |- _ => inversion H; subst; clear H
  | H : gets _ _ = Done _ |- _ => inversion H; subst; clear H
  | H : modify _ _ = Done _ |- _ => inversion H; subst; clear H
  | H : throw _ _ = Done _ |- _ => discriminate H
  | H : Panic _ = Done _ |- _ => discriminate H
  | H : Done _ = Done _ |- _ => inversion H; subst; clear H
  | H : index _ _ _ = Done _ |- _ => apply index_Done in H as [H ->]
  | H : slice _ _ _ _ = Done _ |- _ => apply slice_Done in H as (? & -> & ->)
  end.

(** What a successful fetch says about the machine: the program counter is
    inside the memory together with the argument words, and the program
    counter of the next instruction does not wrap around. *)
Lemma fetch_Done m op args m1 :
  wf m -> fetch m = Done ((op, args), m1) ->
  m1 = m
  /\ memory m !! Z.to_nat (pc m) = Some op
  /\ 0 <= pc m /\ pc m + argsForOp op < 32768
  /\ args = take (Z.to_nat (argsForOp op)) (drop (Z.to_nat (pc m + 1)) (memory m))
  /\ Z.of_nat (length args) = argsForOp op
  /\ nextProgramCounter op m = pc m + 1 + argsForOp op.
Proof.
  intros [Hm Hr Hp _ _ _ _] H. unfold is_u16 in Hp. unfold fetch in H.
  repeat exec1.
  match goal with E : _ !! _ = Some _ |- _ =>
    pose proof (lookup_lt_Some _ _ _ E) as Hlt; rewrite Hm in Hlt end.
  pose proof (argsForOp_range op) as Hn.
  unfold getArgs in *. destruct (Z.ltb_spec 0 (argsForOp op)) as [Hpos|Hz].
  - repeat exec1.
    match goal with Hb : _ <= _ <= _ |- _ => rewrite Hm in Hb; rename Hb into Hs end.
    match goal with Hp : 0 <= pc ?x < 65536 |- _ => rename x into m1 end.
    rewrite (u16_small (pc m1 + 1)) in * by lia.
    assert (pc m1 + 1 + argsForOp op <= 32768) by u16_lia.
    rewrite (u16_small (pc m1 + 1 + argsForOp op)) in * by lia.
    replace (pc m1 + 1 + argsForOp op - (pc m1 + 1)) with (argsForOp op) by lia.
    repeat (split; [ first [ reflexivity | assumption | lia ] | ]).
    split.
    + rewrite length_take, length_drop, Hm. lia.
    + unfold nextProgramCounter. rewrite (u16_small (pc m1 + 1)) by lia.
      apply u16_small; lia.
  - repeat exec1.
    match goal with Hp : 0 <= pc ?x < 65536 |- _ => rename x into m1 end.
    assert (argsForOp op = 0) as Hz' by lia. rewrite Hz'.
    repeat split; try first [ reflexivity | assumption | lia ].
    unfold nextProgramCounter. rewrite Hz', (u16_small (pc m1 + 1)) by lia.
    rewrite Z.add_0_r. apply u16_small; lia.
Qed.

(** ** Single instructions *)

Lemma Step_fetch m op args :
  fetch m = Done ((op, args), m) ->
  Step m = (f <- execute op args ;;
            match f with Return => ret tt | Next => advance op end) m.
Proof. intros H; unfold Step. rewrite (bind_eq _ _ _ _ _ H). reflexivity. Qed.

Lemma readArgAt_eq args i a m :
  args !! Z.to_nat i = Some a -> readArgAt args i m = readArg a m.
Proof.
  intros H; unfold readArgAt. rewrite (bind_eq _ _ _ _ _ (index_eq _ _ _ m H)).
  reflexivity.
Qed.

Lemma stackPop_empty m : stack m = [] -> stackPop m = Done ((0, false), m).
Proof.
  intros H; unfold stackPop, bind, gets, modify, ret; rewrite H; cbn.
  destruct m; cbn in *; subst; reflexivity.
Qed.

Lemma stackPop_push m s v :
  stack m = s ++ [v] -> stackPop m = Done ((v, true), set_stack s m).
Proof.
  intros H; unfold stackPop, bind, gets, modify, ret, Pop, IsEmpty; rewrite H.
  rewrite bool_decide_eq_false_2 by (rewrite length_app; cbn; lia).
  rewrite length_app; cbn [length].
  replace (length s + 1 - 1)%nat with (length s) by lia.
  rewrite app_nth2, Nat.sub_diag by lia. cbn [nth].
  rewrite take_app_length. reflexivity.
Qed.

(** RET on an empty stack, in any state: the machine goes to ERROR. *)
Lemma Step_RET_empty m :
  fetch m = Done ((18, []), m) -> stack m = [] ->
  Step m = Done (tt, errored "Popped an empty stack." m).
Proof.
  intros Hf Hs. rewrite (Step_fetch _ _ _ Hf). unfold execute; cbn [opcode_of].
  unfold bind at 1. unfold bind at 1. rewrite (stackPop_empty _ Hs).
  reflexivity.
Qed.

Lemma Step_RET m s v :
  fetch m = Done ((18, []), m) -> stack m = s ++ [v] ->
  Step m = Done (tt, set_pc v (set_stack s m)).
Proof.
  intros Hf Hs. rewrite (Step_fetch _ _ _ Hf). unfold execute; cbn [opcode_of].
  unfold bind at 1. unfold bind at 1. rewrite (stackPop_push _ _ _ Hs).
  reflexivity.
Qed.

Lemma errored_neq msg m : errored msg m <> m.
Proof.
  intros E. apply (f_equal (fun x => length (stdout x))) in E.
  cbn in E. rewrite !length_app in E. cbn in E. lia.
Qed.

(** A read that leaves the state alone depends on the registers only. *)
Lemma readArg_frame a v m m' :
  readArg a m = Done (v, m) -> regs m' = regs m -> readArg a m' = Done (v, m').
Proof.
  intros H Hr. apply readArg_Done in H as [(Ha & -> & _)|[(Ha & Hv & _)|(_ & _ & E)]].
  - apply readArg_value; exact Ha.
  - rewrite readArg_reg, Hr by exact Ha. apply index_eq; exact Hv.
  - symmetry in E. destruct (errored_neq _ _ E).
Qed.

Lemma Step_CALL m a v :
  wf m -> fetch m = Done ((17, [a]), m) -> readArg a m = Done (v, m) ->
  Step m = Done (tt, set_pc v (set_stack (stack m ++ [pc m + 2]) m)).
Proof.
  intros Hwf Hf Hv. destruct (fetch_Done _ _ _ _ Hwf Hf) as (_ & _ & _ & _ & _ & _ & Hn).
  rewrite (Step_fetch _ _ _ Hf). unfold execute; cbn [opcode_of].
  unfold stackPush. run. rewrite Hn.
  replace (pc m + 1 + argsForOp 17) with (pc m + 2) by (cbn; lia).
  rewrite (bind_eq (readArgAt [a] 0) _ _ v (set_stack (Push (pc m + 2) (stack m)) m)).
  { reflexivity. }
  rewrite (readArgAt_eq [a] 0 a) by reflexivity.
  apply (readArg_frame a v m); [ exact Hv | reflexivity ].
Qed.

(** C7.  A CALL at address [pc m] whose operand is valid pushes [pc m + 2],
    the address of the instruction that follows it (one opcode word and one
    argument word further), and jumps to the value of its operand; a RET
    executed later in any state whose stack is the one the CALL left puts
    the program counter back to [pc m + 2] and the stack back to what it was
    before the CALL. *)
Theorem call_ret_round_trip m a :
  wf m -> fetch m = Done ((17, [a]), m) -> 0 <= a <= 32775 ->
  exists v m1,
    readArg a m = Done (v, m)
    /\ Step m = Done (tt, m1)
    /\ stack m1 = stack m ++ [pc m + 2]
    /\ pc m + 2 = pc m + 1 + argsForOp 17
    /\ pc m1 = v
    /\ forall m2,
         fetch m2 = Done ((18, []), m2) -> stack m2 = stack m1 ->
         exists m3,
           Step m2 = Done (tt, m3) /\ pc m3 = pc m + 2 /\ stack m3 = stack m.
Proof.
  intros Hwf Hf Ha.
  destruct (readArg_valid a m (wf_regs _ Hwf) Ha) as (v & Hv & _).
  exists v, (set_pc v (set_stack (stack m ++ [pc m + 2]) m)).
  split; [ exact Hv | ].
  split; [ apply (Step_CALL m a v); assumption | ].
  split; [ reflexivity | ].
  split; [ cbn; lia | ].
  split; [ reflexivity | ].
  intros m2 Hf2 Hs2. cbn [stack set_pc set_stack] in Hs2.
  exists (set_pc (pc m + 2) (set_stack (stack m) m2)).
  split; [ apply Step_RET; assumption | split; reflexivity ].
Qed.

Lemma call_ret_round_trip_witness :
  let m := NewMachine [17; 3; 0; 18] [] in
  exists v m1,
    readArg 3 m = Done (v, m)
    /\ Step m = Done (tt, m1)
    /\ stack m1 = stack m ++ [pc m + 2]
    /\ pc m + 2 = pc m + 1 + argsForOp 17
    /\ pc m1 = v
    /\ forall m2,
         fetch m2 = Done ((18, []), m2) -> stack m2 = stack m1 ->
         exists m3,
           Step m2 = Done (tt, m3) /\ pc m3 = pc m + 2 /\ stack m3 = stack m.
Proof.
  intros m. apply (call_ret_round_trip m 3).
  - apply NewMachine_wf. words.
  - reflexivity.
  - lia.
Defined.

(** ** OUT *)

Lemma Step_OUT m a v :
  wf m -> fetch m = Done ((19, [a]), m) -> readArg a m = Done (v, m) ->
  Step m = Done (tt, set_pc (pc m + 2) (set_stdout (stdout m ++ [fmtC v]) m)).
Proof.
  intros Hwf Hf Hv. destruct (fetch_Done _ _ _ _ Hwf Hf) as (_ & _ & _ & _ & _ & _ & Hn).
  rewrite (Step_fetch _ _ _ Hf). unfold execute; cbn [opcode_of]. run.
  rewrite (bind_eq (readArgAt [a] 0) _ _ v m)
    by (rewrite (readArgAt_eq [a] 0 a) by reflexivity; exact Hv).
  unfold Printf_c, advance. run. unfold modify.
  change (nextProgramCounter 19 (set_stdout (stdout m ++ [fmtC v]) m))
    with (nextProgramCounter 19 m).
  rewrite Hn. replace (pc m + 1 + argsForOp 19) with (pc m + 2) by (cbn; lia).
  reflexivity.
Qed.

Lemma fmtC_id v : v < 55296 -> fmtC v = v.
Proof.
  intros H; unfold fmtC. destruct (Z.leb_spec 55296 v); [ lia | reflexivity ].
Qed.

(** C5, as the code has it.  An OUT whose operand is valid appends exactly
    one character to what has been printed, after everything printed before;
    its code point is the whole value of the operand, all sixteen bits of it
    (U+FFFD stands in for a surrogate half), and not the low byte of it. *)
Theorem out_prints_the_whole_value m a :
  wf m -> fetch m = Done ((19, [a]), m) -> 0 <= a <= 32775 ->
  exists v m',
    readArg a m = Done (v, m)
    /\ Step m = Done (tt, m')
    /\ stdout m' = stdout m ++ [fmtC v]
    /\ (v < 55296 -> fmtC v = v)
    /\ pc m' = pc m + 2.
Proof.
  intros Hwf Hf Ha.
  destruct (readArg_valid a m (wf_regs _ Hwf) Ha) as (v & Hv & _).
  exists v, (set_pc (pc m + 2) (set_stdout (stdout m ++ [fmtC v]) m)).
  split; [ exact Hv | ].
  split; [ apply (Step_OUT m a v); assumption | ].
  split; [ reflexivity | ].
  split; [ apply fmtC_id | reflexivity ].
Qed.

Lemma out_prints_the_whole_value_witness :
  let m := NewMachine [19; 321] [] in
  exists v m',
    readArg 321 m = Done (v, m)
    /\ Step m = Done (tt, m')
    /\ stdout m' = stdout m ++ [fmtC v]
    /\ (v < 55296 -> fmtC v = v)
    /\ pc m' = pc m + 2.
Proof.
  intros m. apply (out_prints_the_whole_value m 321).
  - apply NewMachine_wf. words.
  - reflexivity.
  - lia.
Defined.

(** C5 as stated fails on [OUT 321]: the character printed has code 321
    (U+0141), while the low byte of 321 is 65 (the letter A). *)
Lemma out_low_byte_counterexample :
  let m := NewMachine [19; 321] [] in
  let m' := set_pc 2 (set_stdout [321] m) in
  Step m = Done (tt, m')
  /\ stdout m' = [321]
  /\ 321 mod 256 = 65
  /\ stdout m' <> [321 mod 256].
Proof.
  intros m m'. split; [ reflexivity | ].
  split; [ reflexivity | ]. split; [ reflexivity | ]. discriminate.
Qed.

(** ** The destination of a result *)

Lemma storeDest_reg args a v m :
  wf m -> args !! 0%nat = Some a -> 32768 <= a <= 32775 ->
  storeDest args v m
    = Done (tt, set_regs (<[Z.to_nat (a - 32768) := v]> (regs m)) m).
Proof.
  intros Hwf Ha Hr. unfold storeDest.
  rewrite (bind_eq _ _ _ _ _ (index_eq args 0 a m Ha)).
  rewrite (proj2 (isReg_true a) Hr).
  rewrite (bind_eq _ _ _ _ _ (index_eq args 0 a m Ha)).
  rewrite decipherReg_reg by lia. apply storeReg_eq.
  rewrite (wf_regs _ Hwf). unfold NREGS. lia.
Qed.

Lemma storeDest_mem args a v m :
  wf m -> args !! 0%nat = Some a -> a <= 32767 ->
  storeDest args v m
    = Done (tt, set_memory (<[Z.to_nat a := v]> (memory m)) m).
Proof.
  intros Hwf Ha Hr. unfold storeDest.
  rewrite (bind_eq _ _ _ _ _ (index_eq args 0 a m Ha)).
  rewrite (proj2 (isReg_false a)) by lia.
  rewrite (bind_eq _ _ _ _ _ (index_eq args 0 a m Ha)).
  apply storeMem_eq. rewrite (wf_memory _ Hwf). lia.
Qed.

Lemma storeDest_high args a v m :
  wf m -> args !! 0%nat = Some a -> 32776 <= a ->
  storeDest args v m = Panic IndexOutOfRange.
Proof.
  intros Hwf Ha Hr. unfold storeDest.
  rewrite (bind_eq _ _ _ _ _ (index_eq args 0 a m Ha)).
  rewrite (proj2 (isReg_false a)) by lia.
  rewrite (bind_eq _ _ _ _ _ (index_eq args 0 a m Ha)).
  apply storeMem_panic. rewrite (wf_memory _ Hwf). lia.
Qed.

(** ** ADD and MULT *)

Lemma add16_exact b c :
  0 <= b <= 32767 -> 0 <= c <= 32767 ->
  u16 (b + c) mod OVERFLOW_15BIT = (b + c) mod 32768.
Proof. intros; rewrite u16_small by lia; reflexivity. Qed.

Lemma mult16_exact b c : u16 (b * c) mod OVERFLOW_15BIT = (b * c) mod 32768.
Proof.
  unfold u16, OVERFLOW_15BIT. symmetry.
  rewrite (Z.div_mod (b * c) 65536) at 1 by lia.
  replace (65536 * (b * c / 65536)) with (2 * (b * c / 65536) * 32768) by lia.
  rewrite Z.add_comm. apply Z.mod_add. lia.
Qed.

Lemma Step_ADD_MULT m op a b c vb vc :
  wf m -> op = 9 \/ op = 10 ->
  fetch m = Done ((op, [a; b; c]), m) ->
  readArg b m = Done (vb, m) -> readArg c m = Done (vc, m) ->
  Step m
    = (storeDest [a; b; c]
         (u16 (if op =? 9 then vb + vc else vb * vc) mod OVERFLOW_15BIT) ;;
       advance op) m.
Proof.
  intros Hwf Hop Hf Hb Hc. rewrite (Step_fetch _ _ _ Hf).
  destruct Hop as [-> | ->]; unfold execute; cbn [opcode_of Z.eqb Pos.eqb]; run;
    rewrite (bind_eq (readArgAt [a; b; c] 1) _ _ vb m)
      by (rewrite (readArgAt_eq _ 1 b) by reflexivity; exact Hb);
    run;
    rewrite (bind_eq (readArgAt [a; b; c] 2) _ _ vc m)
      by (rewrite (readArgAt_eq _ 2 c) by reflexivity; exact Hc);
    cbv zeta; run; reflexivity.
Qed.

(** C6.  With operands that resolve to [vb] and [vc] in [0, 32767], what ADD
    stores is [(vb + vc) mod 32768] and what MULT stores is
    [(vb * vc) mod 32768]: the exact sum or product reduced modulo 32768,
    a value in [0, 32767], the 16-bit intermediate notwithstanding.  It goes
    to the register or the memory cell the first operand names, and the
    program counter moves on by four. *)
Theorem add_mult_modular m op a b c vb vc :
  wf m -> op = 9 \/ op = 10 ->
  fetch m = Done ((op, [a; b; c]), m) ->
  readArg b m = Done (vb, m) -> readArg c m = Done (vc, m) ->
  0 <= vb <= 32767 -> 0 <= vc <= 32767 ->
  let exact := if op =? 9 then vb + vc else vb * vc in
  let v := exact mod 32768 in
  0 <= v <= 32767
  /\ Step m = (storeDest [a; b; c] v ;; advance op) m
  /\ (32768 <= a <= 32775 ->
      Step m = Done (tt, set_pc (pc m + 4)
                          (set_regs (<[Z.to_nat (a - 32768) := v]> (regs m)) m)))
  /\ (0 <= a <= 32767 ->
      Step m = Done (tt, set_pc (pc m + 4)
                          (set_memory (<[Z.to_nat a := v]> (memory m)) m))).
Proof.
  intros Hwf Hop Hf Hb Hc Hvb Hvc exact v.
  assert (Hv : 0 <= v <= 32767).
  { pose proof (Z.mod_pos_bound exact 32768). unfold v; lia. }
  assert (HS : Step m = (storeDest [a; b; c] v ;; advance op) m).
  { rewrite (Step_ADD_MULT m op a b c vb vc) by assumption.
    replace (u16 (if op =? 9 then vb + vc else vb * vc) mod OVERFLOW_15BIT)
      with v; [ reflexivity | ].
    unfold v, exact. destruct Hop as [-> | ->]; cbn [Z.eqb Pos.eqb].
    - symmetry; apply add16_exact; assumption.
    - symmetry; apply mult16_exact. }
  destruct (fetch_Done _ _ _ _ Hwf Hf) as (_ & _ & _ & _ & _ & _ & Hn).
  assert (Hn' : nextProgramCounter op m = pc m + 4).
  { rewrite Hn. destruct Hop as [-> | ->]; cbn; lia. }
  split; [ exact Hv | ]. split; [ exact HS | ]. split; intros Ha; rewrite HS.
  - rewrite (bind_eq _ _ _ _ _ (storeDest_reg [a; b; c] a v m Hwf eq_refl Ha)).
    unfold advance, modify. rewrite <- Hn'. reflexivity.
  - rewrite (bind_eq _ _ _ _ _ (storeDest_mem [a; b; c] a v m Hwf eq_refl (proj2 Ha))).
    unfold advance, modify. rewrite <- Hn'. reflexivity.
Qed.

Lemma add_mult_modular_witness :
  let m := NewMachine [10; 32768; 32767; 32767] [] in
  0 <= 1 <= 32767
  /\ Step m = (storeDest [32768; 32767; 32767] 1 ;; advance 10) m
  /\ (32768 <= 32768 <= 32775 ->
      Step m = Done (tt, set_pc (pc m + 4)
                          (set_regs (<[Z.to_nat (32768 - 32768) := 1]> (regs m)) m)))
  /\ (0 <= 32768 <= 32767 ->
      Step m = Done (tt, set_pc (pc m + 4)
                          (set_memory (<[Z.to_nat 32768 := 1]> (memory m)) m))).
Proof.
  intros m.
  apply (add_mult_modular m 10 32768 32767 32767 32767 32767).
  - apply NewMachine_wf. words.
  - right; reflexivity.
  - reflexivity.
  - reflexivity.
  - reflexivity.
  - lia.
  - lia.
Defined.

(** ** SET and RMEM *)

(** Reading an operand changes neither memory nor registers, stack, program
    counter or input; at most it reports an error. *)
Lemma readArg_keeps a m v m1 :
  readArg a m = Done (v, m1) ->
  memory m1 = memory m /\ regs m1 = regs m /\ stack m1 = stack m
  /\ pc m1 = pc m /\ input m1 = input m /\ unused_input m1 = unused_input m.
Proof.
  intros [(_ & _ & ->)|[(_ & _ & ->)|(_ & _ & ->)]]%readArg_Done;
    repeat split; reflexivity.
Qed.

Lemma readArgAt_Done args i m v m1 :
  readArgAt args i m = Done (v, m1) ->
  exists a, args !! Z.to_nat i = Some a /\ readArg a m = Done (v, m1).
Proof. unfold readArgAt; intros H. repeat exec1. eauto. Qed.

Lemma decipherReg_out_of_range d :
  0 <= d <= 32767 \/ 32776 <= d < 65536 -> 8 <= decipherReg d < 65536.
Proof. intros [H|H]; u16_lia. Qed.

(** The body of SET and of RMEM once the source value is at hand. *)
Lemma SET_RMEM_inv m op d b u m' :
  wf m -> op = 1 \/ op = 15 ->
  fetch m = Done ((op, [d; b]), m) -> Step m = Done (u, m') ->
  exists v m1,
    (exists x, readArg b m = Done (x, m1))
    /\ (Z.to_nat (decipherReg d) < 8)%nat
    /\ m' = set_pc (pc m + 3)
              (set_regs (<[Z.to_nat (decipherReg d) := v]> (regs m1)) m1).
Proof.
  intros Hwf Hop Hf HS.
  destruct (fetch_Done _ _ _ _ Hwf Hf) as (_ & _ & _ & _ & _ & _ & Hn).
  assert (Hn' : nextProgramCounter op m = pc m + 3)
    by (rewrite Hn; destruct Hop as [-> | ->]; cbn; lia).
  rewrite (Step_fetch _ _ _ Hf) in HS.
  destruct Hop as [-> | ->]; unfold execute in HS; cbn [opcode_of] in HS;
    repeat exec1;
    repeat match goal with
      | H : readArgAt _ _ _ = Done _ |- _ =>
          apply readArgAt_Done in H as (? & Hi & H); cbn in Hi;
          inversion Hi; subst; clear Hi
      | H : [_; _] !! _ = Some _ |- _ => cbn in H; inversion H; subst; clear H
      | H : storeReg _ _ _ = Done _ |- _ => apply storeReg_Done in H as [? ->]
      end;
    unfold advance in *; repeat exec1;
    match goal with H : readArg _ _ = Done (_, ?m1) |- _ =>
      pose proof (readArg_keeps _ _ _ _ H) as (_ & Hr & _ & Hpc & _);
      pose proof (wf_regs _ Hwf) as Hlen; rewrite <- Hr in Hlen;
      eexists _, m1; split; [ eexists; exact H | ]
    end;
    (split; [ unfold NREGS in *; lia | ]);
    unfold nextProgramCounter in *; cbn [pc set_regs] in *; rewrite Hpc, Hn';
    reflexivity.
Qed.

Lemma readArg_total a m :
  wf m -> exists v m1, readArg a m = Done (v, m1).
Proof.
  intros Hwf. destruct (Z_le_gt_dec a 32767) as [H|H].
  - exists a, m. apply readArg_value; exact H.
  - destruct (Z_le_gt_dec a 32775) as [H'|H'].
    + destruct (readArg_valid a m (wf_regs _ Hwf)) as (v & Hv & _); [ lia | eauto ].
    + eexists _, _. apply readArg_invalid; lia.
Qed.

Lemma Step_SET_RMEM m op d b v m1 :
  op = 1 \/ op = 15 ->
  fetch m = Done ((op, [d; b]), m) -> readArg b m = Done (v, m1) ->
  Step m
    = (x <- (if op =? 1 then ret v else index (memory m) v) ;;
       storeReg (decipherReg d) x ;;
       advance op) m1.
Proof.
  intros Hop Hf Hb. rewrite (Step_fetch _ _ _ Hf).
  pose proof (readArg_keeps _ _ _ _ Hb) as (Hmem & _).
  destruct Hop as [-> | ->]; unfold execute; cbn [opcode_of Z.eqb Pos.eqb]; run;
    rewrite (bind_eq (index [d; b] 0) _ _ d m) by reflexivity; run;
    rewrite (bind_eq (readArgAt [d; b] 1) _ _ v m1)
      by (rewrite (readArgAt_eq _ 1 b) by reflexivity; exact Hb);
    run; rewrite ?Hmem; [ reflexivity | ];
    apply bind_ext; intros; run; apply bind_ext; intros; run; reflexivity.
Qed.

(** C9.  SET (opcode 1) and RMEM (opcode 15) use their first operand [d] as
    a register reference whatever it is.  A step that completes has written
    register [decipherReg d], an index below 8, and has left the memory as it
    was.  For [d] in [32768, 32775] that register is [d - 32768], and the
    step stores there the value of the second operand (SET) or the memory
    cell it addresses (RMEM).  For [d] in [0, 32767] the index wraps around
    to [d + 32768], outside the eight registers, and the step panics with
    an index out of range. *)
Theorem set_rmem_write_registers_only m op d b :
  wf m -> op = 1 \/ op = 15 -> fetch m = Done ((op, [d; b]), m) ->
  (forall u m', Step m = Done (u, m') ->
     memory m' = memory m
     /\ (Z.to_nat (decipherReg d) < 8)%nat
     /\ exists v, regs m' = <[Z.to_nat (decipherReg d) := v]> (regs m))
  /\ (32768 <= d <= 32775 ->
      decipherReg d = d - 32768
      /\ forall v m1 x,
           readArg b m = Done (v, m1) ->
           (if op =? 1 then Some v else memory m !! Z.to_nat v) = Some x ->
           Step m = Done (tt, set_pc (pc m + 3)
                               (set_regs (<[Z.to_nat (d - 32768) := x]> (regs m)) m1)))
  /\ (0 <= d <= 32767 ->
      decipherReg d = d + 32768 /\ Step m = Panic IndexOutOfRange).
Proof.
  intros Hwf Hop Hf.
  destruct (fetch_Done _ _ _ _ Hwf Hf) as (_ & _ & _ & _ & _ & _ & Hn).
  assert (Hn' : nextProgramCounter op m = pc m + 3)
    by (rewrite Hn; destruct Hop as [-> | ->]; cbn; lia).
  split; [ | split ].
  - intros u m' HS.
    destruct (SET_RMEM_inv _ _ _ _ _ _ Hwf Hop Hf HS) as (v & m1 & [x Hx] & Hlt & ->).
    pose proof (readArg_keeps _ _ _ _ Hx) as (Hmem & Hr & _).
    split; [ exact Hmem | ]. split; [ exact Hlt | ].
    exists v. cbn. rewrite Hr. reflexivity.
  - intros Hd. split; [ apply decipherReg_reg; lia | ].
    intros v m1 x Hv Hx. rewrite (Step_SET_RMEM m op d b v m1 Hop Hf Hv).
    pose proof (readArg_keeps _ _ _ _ Hv) as (_ & Hr & _ & Hpc & _).
    assert (Hx' : (if op =? 1 then ret x else index (memory m) v) m1 = Done (x, m1)).
    { destruct Hop as [-> | ->]; cbn [Z.eqb Pos.eqb] in *.
      - inversion Hx; reflexivity.
      - apply index_eq; exact Hx. }
    replace (if op =? 1 then ret v else index (memory m) v)
      with (if op =? 1 then ret x else index (memory m) v)
      by (destruct Hop as [-> | ->]; cbn [Z.eqb Pos.eqb] in *;
          [ inversion Hx; reflexivity | reflexivity ]).
    rewrite (bind_eq _ _ _ _ _ Hx').
    rewrite decipherReg_reg by lia.
    rewrite (bind_eq _ _ m1 tt _ (storeReg_eq (d - 32768) x m1 ltac:(
      rewrite Hr, (wf_regs _ Hwf); unfold NREGS; lia))).
    unfold advance, modify, nextProgramCounter in *. cbn [pc set_regs].
    rewrite Hpc, Hn', Hr. reflexivity.
  - intros Hd. split; [ apply decipherReg_value; exact Hd | ].
    destruct (readArg_total b m Hwf) as (v & m1 & Hv).
    rewrite (Step_SET_RMEM m op d b v m1 Hop Hf Hv).
    pose proof (readArg_keeps _ _ _ _ Hv) as (_ & Hr & _).
    assert (Hp : forall x, storeReg (decipherReg d) x m1 = Panic IndexOutOfRange).
    { intros x. apply storeReg_panic.
      rewrite Hr, (wf_regs _ Hwf), decipherReg_value by exact Hd.
      unfold NREGS; lia. }
    destruct Hop as [-> | ->]; cbn [Z.eqb Pos.eqb]; run.
    + apply bind_panic, Hp.
    + unfold index. destruct (memory m !! Z.to_nat v) as [x|].
      * run. apply bind_panic, Hp.
      * reflexivity.
Qed.

Lemma set_rmem_write_registers_only_witness :
  let m := NewMachine [1; 32769; 5] [] in
  (forall u m', Step m = Done (u, m') ->
     memory m' = memory m
     /\ (Z.to_nat (decipherReg 32769) < 8)%nat
     /\ exists v, regs m' = <[Z.to_nat (decipherReg 32769) := v]> (regs m))
  /\ (32768 <= 32769 <= 32775 ->
      decipherReg 32769 = 32769 - 32768
      /\ forall v m1 x,
           readArg 5 m = Done (v, m1) ->
           (if 1 =? 1 then Some v else memory m !! Z.to_nat v) = Some x ->
           Step m = Done (tt, set_pc (pc m + 3)
                               (set_regs (<[Z.to_nat (32769 - 32768) := x]> (regs m)) m1)))
  /\ (0 <= 32769 <= 32767 ->
      decipherReg 32769 = 32769 + 32768 /\ Step m = Panic IndexOutOfRange).
Proof.
  intros m. apply (set_rmem_write_registers_only m 1 32769 5).
  - apply NewMachine_wf. words.
  - left; reflexivity.
  - reflexivity.
Defined.

(** ** IN *)

Lemma ReadString_nil delim s : fst (ReadString delim s) = [] <-> s = [].
Proof.
  destruct s as [|c s]; cbn; [ tauto | ].
  destruct (c =? delim); [ | destruct (ReadString delim s) ]; cbn;
    split; discriminate.
Qed.

Lemma ReadString_app delim s :
  fst (ReadString delim s) ++ snd (ReadString delim s) = s.
Proof.
  induction s as [|c s IH]; cbn; [ reflexivity | ].
  destruct (c =? delim); [ reflexivity | ].
  destruct (ReadString delim s) as [l r]; cbn in *. rewrite IH. reflexivity.
Qed.

Lemma Step_IN_refill m a :
  fetch m = Done ((20, [a]), m) -> unused_input m = [] ->
  Step m
    = ((if isReg a then
          buf <- gets unused_input ;;
          c <- index buf 0 ;;
          storeReg (decipherReg a) c
        else
          addr <- readArg a ;;
          buf <- gets unused_input ;;
          c <- index buf 0 ;;
          storeMem addr c) ;;
       modify (fun m => set_unused_input (drop 1 (unused_input m)) m) ;;
       advance 20) (refilled m).
Proof.
  intros Hf Hbuf. rewrite (Step_fetch _ _ _ Hf).
  unfold execute; cbn [opcode_of]. unfold refill. run. rewrite Hbuf.
  change (bool_decide (length (@nil Z) = 0%nat)) with true. cbv iota.
  unfold Printf, refilled. run. cbn [input set_stdout].
  destruct (ReadString 10 (input m)) as [line rest]. run.
  cbn [unused_input set_unused_input set_input set_stdout].
  rewrite (bind_eq (index [a] 0) _ _ a _) by reflexivity. run.
  unfold readArgAt.
  destruct (isReg a); run;
    rewrite (bind_eq (index [a] 0) _ _ a _) by reflexivity; run.
  - apply bind_ext; intros; run. apply bind_ext; intros; run. reflexivity.
  - apply bind_ext; intros; run. apply bind_ext; intros; run.
    apply bind_ext; intros; run. reflexivity.
Qed.

Lemma refilled_keeps m :
  memory (refilled m) = memory m /\ regs (refilled m) = regs m
  /\ pc (refilled m) = pc m /\ stack (refilled m) = stack m
  /\ state (refilled m) = state m
  /\ input (refilled m) = snd (ReadString 10 (input m))
  /\ unused_input (refilled m)
     = unused_input m ++ map u16 (fst (ReadString 10 (input m))).
Proof.
  unfold refilled. destruct (ReadString 10 (input m)); repeat split.
Qed.

Lemma refilled_wf m : wf m -> wf (refilled m).
Proof.
  intros [Hm Hr Hp Hw Hrw Hs Hu].
  destruct (refilled_keeps m) as (Em & Er & Ep & Es & _ & _ & Eu).
  split; rewrite ?Em, ?Er, ?Ep, ?Es, ?Eu; try assumption.
  apply Forall_app. split; [ exact Hu | ].
  apply Forall_forall. intros x [y [-> _]]%list_elem_of_fmap. apply u16_range.
Qed.

(** C10.  IN with nothing pending reads a line from the input.  When that
    line has no character, which happens exactly when the input is at its
    end, the buffer is still empty and taking its element 0 is an index out
    of range: the step panics.  When the line has a character the step
    completes, whatever the operand is; the rest of the line stays in the
    buffer. *)
Theorem in_needs_a_character m a :
  wf m -> fetch m = Done ((20, [a]), m) -> unused_input m = [] ->
  let line := fst (ReadString 10 (input m)) in
  (line = [] <-> input m = [])
  /\ (line = [] -> Step m = Panic IndexOutOfRange)
  /\ (line <> [] ->
      exists m', Step m = Done (tt, m')
        /\ unused_input m' = map u16 (drop 1 line)
        /\ input m' = snd (ReadString 10 (input m))).
Proof.
  intros Hwf Hf Hbuf line.
  destruct (refilled_keeps m) as (Em & Er & Ep & _ & _ & Ei & Eu).
  rewrite Hbuf in Eu; cbn [app] in Eu. fold line in Eu.
  pose proof (refilled_wf m Hwf) as Hwf'.
  split; [ apply ReadString_nil | ].
  rewrite (Step_IN_refill m a Hf Hbuf). split.
  - intros Hl. rewrite Hl in Eu; cbn in Eu.
    destruct (isReg a); run.
    + rewrite Eu. reflexivity.
    + destruct (readArg_total a (refilled m) Hwf') as (addr & m3 & Ha).
      rewrite (bind_eq _ _ _ _ _ Ha). run.
      destruct (readArg_keeps _ _ _ _ Ha) as (_ & _ & _ & _ & _ & ->).
      rewrite Eu. reflexivity.
  - intros Hl. destruct line as [|c l] eqn:El; [ congruence | ]. cbn in Eu.
    destruct (isReg a) eqn:Hreg; run.
    + rewrite Eu.
      rewrite (bind_eq _ _ _ _ _ (index_eq (u16 c :: map u16 l) 0 (u16 c) _ eq_refl)).
      apply isReg_true in Hreg.
      rewrite (bind_eq _ _ _ tt _ (storeReg_eq (decipherReg a) (u16 c) (refilled m) ltac:(
        rewrite decipherReg_reg, (wf_regs _ Hwf') by lia; unfold NREGS; lia))).
      unfold advance. run. unfold modify. eexists. split; [ reflexivity | ].
      cbn [unused_input input set_pc set_unused_input set_regs]. rewrite Eu, Ei.
      split; reflexivity.
    + destruct (readArg_total a (refilled m) Hwf') as (addr & m3 & Ha).
      rewrite (bind_eq _ _ _ _ _ Ha). run.
      destruct (readArg_keeps _ _ _ _ Ha) as (Em3 & _ & _ & _ & Ei3 & Eu3).
      rewrite Eu3, Eu.
      rewrite (bind_eq _ _ _ _ _ (index_eq (u16 c :: map u16 l) 0 (u16 c) _ eq_refl)).
      assert (Haddr : (Z.to_nat addr < length (memory m3))%nat).
      { rewrite Em3, (wf_memory _ Hwf').
        apply readArg_Done in Ha as [(? & -> & _)|[(? & _ & _)|(_ & -> & _)]].
        - lia.
        - apply isReg_false in Hreg. lia.
        - lia. }
      rewrite (bind_eq _ _ _ tt _ (storeMem_eq addr (u16 c) m3 Haddr)).
      unfold advance. run. unfold modify. eexists. split; [ reflexivity | ].
      cbn [unused_input input set_pc set_unused_input set_memory].
      rewrite Eu3, Ei3, Eu, Ei. split; reflexivity.
Qed.

Lemma in_needs_a_character_witness :
  let m := NewMachine [20; 32768] [] in
  let line := fst (ReadString 10 (input m)) in
  (line = [] <-> input m = [])
  /\ (line = [] -> Step m = Panic IndexOutOfRange)
  /\ (line <> [] ->
      exists m', Step m = Done (tt, m')
        /\ unused_input m' = map u16 (drop 1 line)
        /\ input m' = snd (ReadString 10 (input m))).
Proof.
  intros m. apply (in_needs_a_character m 32768).
  - apply NewMachine_wf. words.
  - reflexivity.
  - reflexivity.
Defined.

(** ** Symbolic execution of a completed step *)

Lemma stackPop_Done m v ok m1 :
  stackPop m = Done ((v, ok), m1) ->
  (stack m = [] /\ v = 0 /\ ok = false /\ m1 = m)
  \/ (exists s, stack m = s ++ [v] /\ ok = true /\ m1 = set_stack s m).
Proof.
  destruct (stack m) as [|x s] eqn:Hs using rev_ind.
  - rewrite (stackPop_empty _ Hs). intros E; inversion E; auto.
  - rewrite (stackPop_push _ _ _ Hs). intros E; inversion E; subst.
    right; eauto.
Qed.

Lemma refill_Done m u m1 :
  refill m = Done (u, m1) ->
  (unused_input m <> [] /\ m1 = m) \/ (unused_input m = [] /\ m1 = refilled m).
Proof.
  unfold refill, refilled, Printf. run.
  destruct (unused_input m) as [|c l] eqn:Hbuf.
  - change (bool_decide (length (@nil Z) = 0%nat)) with true. cbv iota. run.
    cbn [input set_stdout]. destruct (ReadString 10 (input m)) as [line rest].
    run. unfold modify. cbn [unused_input set_input set_stdout]. rewrite Hbuf.
    intros E; inversion E. right; auto.
  - change (bool_decide (length (c :: l) = 0%nat)) with false. cbv iota.
    intros E; inversion E. left; split; [ discriminate | reflexivity ].
Qed.

Ltac exec_branch :=
  match goal with
  | H : (if negb ?b then _ else _) _ = Done _ |- _ =>
      destruct b eqn:?; cbn [negb] in H; cbv iota in H
  | H : (if ?b then _ else _) _ = Done _ |- _ => destruct b eqn:?; cbv iota in H
  | H : (match ?f with Next => _ | Return => _ end) _ = Done _ |- _ =>
      destruct f; cbv iota in H
  | H : (let '(_, _) := ?r in _) _ = Done _ |- _ =>
      destruct r as [? ?] eqn:?; cbv iota in H
  end.

Ltac exec_atom :=
  match goal with
  | H : readArgAt _ _ _ = Done _ |- _ => unfold readArgAt in H
  | H : readArg _ _ = Done _ |- _ =>
      apply readArg_Done in H as [(? & ? & ?)|[(? & ? & ?)|(? & ? & ?)]]; subst
  | H : storeDest _ _ _ = Done _ |- _ => unfold storeDest in H
  | H : storeReg _ _ _ = Done _ |- _ => apply storeReg_Done in H as [? ?]; subst
  | H : storeMem _ _ _ = Done _ |- _ => apply storeMem_Done in H as [? ?]; subst
  | H : stackPop _ = Done _ |- _ =>
      apply stackPop_Done in H as [(? & ? & ? & ?)|(? & ? & ? & ?)]; subst
  | H : stackPush _ _ = Done _ |- _ => unfold stackPush in H
  | H : refill _ = Done _ |- _ => apply refill_Done in H as [[? ?]|[? ?]]; subst
  | H : Error _ _ = Done _ |- _ => rewrite Error_eq in H
  | H : Halt _ = Done _ |- _ => unfold Halt in H
  | H : Printf_c _ _ = Done _ |- _ => unfold Printf_c in H
  | H : advance _ _ = Done _ |- _ => unfold advance in H
  end.

Ltac exec_all := repeat first [ exec1 | exec_branch | exec_atom ].

(** Two lookups at the same place give the same word. *)
Ltac same_lookups :=
  change (Z.to_nat 0) with 0%nat in *;
  change (Z.to_nat 1) with 1%nat in *;
  change (Z.to_nat 2) with 2%nat in *;
  repeat match goal with
    | H1 : ?l !! ?i = Some ?a, H2 : ?l !! ?i = Some ?b |- _ =>
        assert (a = b) by congruence; clear H2; subst
    end.

(** ** Invalid operands *)

(** ** Actions that differ in what they report only *)

Lemma same_effect_refl m : same_effect m m.
Proof. repeat split. Qed.

Lemma alike_ret {A} (a : A) : alike (ret a) (ret a).
Proof. intros m1 m2 H. split; [ reflexivity | exact H ]. Qed.

Lemma alike_throw {A} p : alike (@throw A p) (throw p).
Proof. intros m1 m2 H. reflexivity. Qed.

Lemma alike_bind {A B} (c1 c2 : M A) (k1 k2 : A -> M B) :
  alike c1 c2 -> (forall a, alike (k1 a) (k2 a)) ->
  alike (bind c1 k1) (bind c2 k2).
Proof.
  intros Hc Hk m1 m2 H. specialize (Hc m1 m2 H). unfold bind, same_outcome in *.
  destruct (c1 m1) as [[a m1']|p], (c2 m2) as [[b m2']|q]; try contradiction.
  - destruct Hc as [<- Hc]. exact (Hk a m1' m2' Hc).
  - exact Hc.
Qed.

Lemma alike_gets {A} (f : Machine -> A) :
  (forall m1 m2, same_effect m1 m2 -> f m1 = f m2) -> alike (gets f) (gets f).
Proof. intros Hf m1 m2 H. split; [ exact (Hf m1 m2 H) | exact H ]. Qed.

Lemma alike_modify (f : Machine -> Machine) :
  (forall m1 m2, same_effect m1 m2 -> same_effect (f m1) (f m2)) ->
  alike (modify f) (modify f).
Proof. intros Hf m1 m2 H. split; [ reflexivity | exact (Hf m1 m2 H) ]. Qed.

Lemma alike_bind_ret {A B} (x y : A) (k1 k2 : A -> M B) :
  alike (k1 x) (k2 y) -> alike (a <- ret x ;; k1 a) (a <- ret y ;; k2 a).
Proof. intros H. exact H. Qed.

(** The read of an invalid operand beside the read of the literal 0. *)
Lemma alike_read_invalid x : 32776 <= x -> alike (readArg x) (readArg 0).
Proof.
  intros Hx m1 m2 H.
  rewrite (readArg_invalid x m1 Hx), (readArg_value 0 m2) by lia.
  split; [ reflexivity | ].
  destruct H as (? & ? & ? & ? & ? & ?). repeat split; assumption.
Qed.

Ltac keeps :=
  let H := fresh in
  intros ? ? H; unfold same_effect, nextProgramCounter in *;
  destruct H as (? & ? & ? & ? & ? & ?);
  cbn [memory regs stack pc input unused_input state stdout
       set_memory set_regs set_stack set_pc set_input set_unused_input
       set_state set_stdout];
  repeat split; congruence.

Ltac alike_step :=
  first
    [ apply alike_ret
    | apply alike_throw
    | apply alike_read_invalid; lia
    | apply alike_bind_ret; cbv beta
    | apply alike_bind; [ | intros ? ]
    | apply alike_gets; keeps
    | apply alike_modify; keeps
    | match goal with
      | H : isReg ?x = false |- alike (if isReg ?x then _ else _) _ =>
          rewrite H; change (isReg 0) with false; cbv iota
      | |- alike (match ?o with Some _ => _ | None => _ end) _ => destruct o
      | |- alike (if ?b then _ else _) _ => destruct b
      | |- alike (let '(_, _) := ?r in _) _ => destruct r
      | |- alike (match ?r with (_, _) => _ end) _ => destruct r
      end ].

Lemma alike_readArg a : alike (readArg a) (readArg a).
Proof.
  unfold readArg, Error, Println, index. repeat alike_step.
Qed.

Ltac alike := repeat first [ apply alike_readArg | alike_step ].

Lemma execute_with_zero op i args k x :
  opcode_of op = Some i -> reads i k = true -> args !! k = Some x ->
  32776 <= x ->
  alike (execute op args) (execute op (<[k := 0]> args)).
Proof.
  intros Hop Hk Hx Hbad. pose proof (lookup_lt_Some _ _ _ Hx) as Hlen.
  assert (Hv : isReg x = false) by (unfold isReg, MAX_REG, MAX_15BIT; lia).
  unfold execute. rewrite Hop.
  destruct i; destruct k as [|[|[|k]]]; try discriminate Hk; cbv iota.
  all: unfold storeDest, readArgAt, index.
  all: change (Z.to_nat 0) with 0%nat; change (Z.to_nat 1) with 1%nat;
       change (Z.to_nat 2) with 2%nat.
  all: rewrite ?list_lookup_insert_eq by exact Hlen.
  all: rewrite ?list_lookup_insert_ne by lia.
  all: rewrite ?Hx.
  all: unfold Error, Println, Halt, stackPush, stackPop, storeReg, storeMem,
         refill, Printf, Printf_c.
  all: alike.
Qed.

Lemma carry_out_with_zero op i args k x :
  opcode_of op = Some i -> reads i k = true -> args !! k = Some x ->
  32776 <= x ->
  alike (carry_out op args) (carry_out op (<[k := 0]> args)).
Proof.
  intros Hop Hk Hx Hbad. unfold carry_out. apply alike_bind.
  - exact (execute_with_zero op i args k x Hop Hk Hx Hbad).
  - intros [|]; unfold advance; alike.
Qed.

(** C2, as the code has it.  An operand of 32776 or more that the instruction
    reads is reported, read as 0, and puts the machine in state ERROR, and
    when the step completes the machine is still in state ERROR.  The
    instruction is not abandoned: the step is the rest of [Step] carried out
    on the operand words as they are, and carrying it out with the word 0
    in the place of the invalid operand completes as well and ends with the
    same memory, registers, stack, program counter and input. *)
Theorem invalid_operand_errors m op i args k x u m' :
  fetch m = Done ((op, args), m) -> opcode_of op = Some i ->
  reads i k = true -> args !! k = Some x -> 32776 <= x ->
  Step m = Done (u, m') ->
  readArg x m = Done (0, errored (invalid_argument x) m)
  /\ state m' = ERROR
  /\ Step m = carry_out op args m
  /\ exists m0,
       carry_out op (<[k := 0]> args) m = Done (u, m0)
       /\ same_effect m' m0.
Proof.
  intros Hf Hop Hk Hx Hbad HS.
  split; [ apply readArg_invalid; exact Hbad | ].
  split.
  { rewrite (Step_fetch _ _ _ Hf) in HS. apply bind_Done in HS as (f & m1 & HE & HS).
    unfold execute in HE. rewrite Hop in HE.
    destruct i; destruct k as [|[|[|k]]]; try discriminate Hk; cbv iota in HE;
      exec_all.
    all: same_lookups.
    all: try lia.
    all: try reflexivity.
    all: try (apply isReg_true in Heqb; lia). }
  split; [ exact (Step_fetch _ _ _ Hf) | ].
  pose proof (carry_out_with_zero op i args k x Hop Hk Hx Hbad m m
                (same_effect_refl m)) as Hsim.
  change (carry_out op args m) with
    ((f <- execute op args ;;
      match f with Return => ret tt | Next => advance op end) m) in Hsim.
  rewrite <- (Step_fetch _ _ _ Hf), HS in Hsim.
  unfold same_outcome in Hsim.
  destruct (carry_out op (<[k := 0]> args) m) as [[u0 m0]|p]; [ | contradiction ].
  destruct Hsim as [-> Hsim]. exists m0. split; [ reflexivity | exact Hsim ].
Qed.

Lemma invalid_operand_errors_witness :
  let m := NewMachine [2; 40000] [] in
  let m' := set_pc 2 (set_stack [0] (errored (invalid_argument 40000) m)) in
  readArg 40000 m = Done (0, errored (invalid_argument 40000) m)
  /\ state m' = ERROR
  /\ Step m = carry_out 2 [40000] m
  /\ exists m0,
       carry_out 2 (<[0%nat := 0]> [40000]) m = Done (tt, m0)
       /\ same_effect m' m0.
Proof.
  intros m m'.
  apply (invalid_operand_errors m 2 PUSH [40000] 0%nat 40000 tt m').
  - reflexivity.
  - reflexivity.
  - reflexivity.
  - reflexivity.
  - lia.
  - reflexivity.
Defined.

(** C2 as stated fails on [PUSH 40000]: the machine goes to ERROR, but the
    instruction is not abandoned; it pushes the 0 that the invalid operand
    reads as, and the program counter moves on to 2. *)
Lemma invalid_operand_not_abandoned :
  let m := NewMachine [2; 40000] [] in
  let m' := set_pc 2 (set_stack [0] (errored (invalid_argument 40000) m)) in
  Step m = Done (tt, m')
  /\ state m' = ERROR
  /\ stack m = [] /\ stack m' = [0] /\ stack m' <> stack m
  /\ pc m = 0 /\ pc m' = 2 /\ pc m' <> pc m.
Proof.
  intros m m'. split; [ reflexivity | ].
  repeat split; discriminate.
Qed.

(** ** Values in [0, 32767] *)

Lemma in15_0 : in15 0.
Proof. unfold in15; lia. Qed.

Lemma in15_flag (b : bool) : in15 (if b then 1 else 0).
Proof. unfold in15; destruct b; lia. Qed.

Lemma in15_reduced x : in15 (x mod OVERFLOW_15BIT).
Proof.
  unfold in15, OVERFLOW_15BIT. pose proof (Z.mod_pos_bound x 32768). lia.
Qed.

Lemma in15_rem b c : in15 b -> in15 c -> (c =? 0) = false -> in15 (b mod c).
Proof.
  unfold in15; intros Hb Hc Hz%Z.eqb_neq.
  pose proof (Z.mod_pos_bound b c). pose proof (Z.mod_le b c). lia.
Qed.

(** A value below [2 ^ k] is one whose bits from [k] on are all clear. *)
Lemma below_pow2_bits k v :
  0 < k ->
  0 <= v < 2 ^ k <-> 0 <= v /\ forall n, k <= n -> Z.testbit v n = false.
Proof.
  intros Hk. split.
  - intros [H0 H1]. split; [ exact H0 | ]. intros n Hn.
    destruct (Z.eq_dec v 0) as [->|Hv]; [ apply Z.bits_0 | ].
    apply Z.bits_above_log2; [ exact H0 | ].
    assert (Z.log2 v < k) by (apply Z.log2_lt_pow2; lia). lia.
  - intros [H0 H]. split; [ exact H0 | ].
    destruct (Z_lt_le_dec v (2 ^ k)) as [Hlt|Hge]; [ exact Hlt | ].
    assert (0 < 2 ^ k) by (apply Z.pow_pos_nonneg; lia).
    assert (k <= Z.log2 v) by (apply Z.log2_le_pow2; lia).
    pose proof (Z.bit_log2 v ltac:(lia)) as Hb.
    rewrite H in Hb by lia. discriminate.
Qed.

Lemma in15_bits v : in15 v <-> 0 <= v /\ forall n, 15 <= n -> Z.testbit v n = false.
Proof.
  rewrite <- (below_pow2_bits 15) by lia. unfold in15.
  change (2 ^ 15) with 32768. lia.
Qed.

Lemma is_u16_bits v :
  is_u16 v <-> 0 <= v /\ forall n, 16 <= n -> Z.testbit v n = false.
Proof.
  rewrite <- (below_pow2_bits 16) by lia. unfold is_u16.
  change (2 ^ 16) with 65536. lia.
Qed.

Lemma in15_land b c : in15 b -> in15 c -> in15 (Z.land b c).
Proof.
  intros [Hb Hb']%in15_bits [Hc Hc']%in15_bits. apply in15_bits. split.
  - apply Z.land_nonneg; auto.
  - intros n Hn. rewrite Z.land_spec, Hb' by exact Hn. reflexivity.
Qed.

Lemma in15_lor b c : in15 b -> in15 c -> in15 (Z.lor b c).
Proof.
  intros [Hb Hb']%in15_bits [Hc Hc']%in15_bits. apply in15_bits. split.
  - apply Z.lor_nonneg; auto.
  - intros n Hn. rewrite Z.lor_spec, Hb', Hc' by exact Hn. reflexivity.
Qed.

Lemma in15_not b : in15 b -> in15 (Z.lxor b MAX_15BIT).
Proof.
  intros [Hb Hb']%in15_bits. apply in15_bits. split.
  - apply Z.lxor_nonneg. unfold MAX_15BIT. lia.
  - intros n Hn. rewrite Z.lxor_spec, Hb' by exact Hn.
    assert (Hm : in15 MAX_15BIT) by (unfold in15, MAX_15BIT; lia).
    apply in15_bits in Hm as [_ Hm]. rewrite Hm by exact Hn. reflexivity.
Qed.

Lemma in15_u16 v : in15 v -> u16 v = v.
Proof. unfold in15; intros; apply u16_small; lia. Qed.

Lemma is_u16_flag (b : bool) : is_u16 (if b then 1 else 0).
Proof. unfold is_u16; destruct b; lia. Qed.

Lemma is_u16_reduced x : is_u16 (x mod OVERFLOW_15BIT).
Proof. pose proof (in15_reduced x). unfold in15, is_u16 in *. lia. Qed.

Lemma is_u16_rem b c : is_u16 b -> is_u16 c -> (c =? 0) = false -> is_u16 (b mod c).
Proof.
  unfold is_u16; intros Hb Hc Hz%Z.eqb_neq.
  pose proof (Z.mod_pos_bound b c). pose proof (Z.mod_le b c). lia.
Qed.

Lemma is_u16_land b c : is_u16 b -> is_u16 c -> is_u16 (Z.land b c).
Proof.
  intros [Hb Hb']%is_u16_bits [Hc Hc']%is_u16_bits. apply is_u16_bits. split.
  - apply Z.land_nonneg; auto.
  - intros n Hn. rewrite Z.land_spec, Hb' by exact Hn. reflexivity.
Qed.

Lemma is_u16_lor b c : is_u16 b -> is_u16 c -> is_u16 (Z.lor b c).
Proof.
  intros [Hb Hb']%is_u16_bits [Hc Hc']%is_u16_bits. apply is_u16_bits. split.
  - apply Z.lor_nonneg; auto.
  - intros n Hn. rewrite Z.lor_spec, Hb', Hc' by exact Hn. reflexivity.
Qed.

Lemma is_u16_not b : is_u16 b -> is_u16 (Z.lxor b MAX_15BIT).
Proof.
  intros [Hb Hb']%is_u16_bits. apply is_u16_bits. split.
  - apply Z.lxor_nonneg. unfold MAX_15BIT. lia.
  - intros n Hn. rewrite Z.lxor_spec, Hb' by exact Hn.
    assert (Hm : is_u16 MAX_15BIT) by (unfold is_u16, MAX_15BIT; lia).
    apply is_u16_bits in Hm as [_ Hm]. rewrite Hm by exact Hn. reflexivity.
Qed.

Lemma is_u16_0 : is_u16 0.
Proof. unfold is_u16; lia. Qed.

Lemma is_u16_u16 x : is_u16 (u16 x).
Proof. apply u16_range. Qed.

Create HintDb u16.
#[local] Hint Resolve is_u16_0 is_u16_flag is_u16_reduced is_u16_rem
  is_u16_land is_u16_lor is_u16_not is_u16_u16 : u16.

Create HintDb in15.
#[local] Hint Resolve in15_0 in15_flag in15_reduced in15_rem in15_land
  in15_lor in15_not : in15.

Lemma ReadString_ranged s :
  Forall in15 s ->
  Forall in15 (fst (ReadString 10 s)) /\ Forall in15 (snd (ReadString 10 s)).
Proof.
  intros H. rewrite <- (ReadString_app 10 s) in H.
  apply Forall_app in H. exact H.
Qed.

Lemma map_u16_ranged l : Forall in15 l -> map u16 l = l.
Proof.
  induction 1 as [|v l Hv _ IH]; cbn; [ reflexivity | ].
  rewrite IH, in15_u16 by exact Hv. reflexivity.
Qed.

Lemma refilled_ranged m : ranged m -> ranged (refilled m).
Proof.
  intros [Hr Hs Hu Hi].
  destruct (refilled_keeps m) as (_ & Er & _ & Es & _ & Ei & Eu).
  destruct (ReadString_ranged _ Hi) as [Hl Hrest].
  split; rewrite ?Er, ?Es, ?Ei, ?Eu; try assumption.
  apply Forall_app. split; [ exact Hu | ].
  rewrite map_u16_ranged by exact Hl. exact Hl.
Qed.

Lemma fetch_words m op args :
  wf m -> fetch m = Done ((op, args), m) -> Forall is_u16 args.
Proof.
  intros Hwf Hf.
  destruct (fetch_Done _ _ _ _ Hwf Hf) as (_ & _ & _ & _ & -> & _).
  apply Forall_take, Forall_drop, (wf_words _ Hwf).
Qed.

Lemma stores_in15_refl l : stores_in15 l l.
Proof. intros i v H; left; exact H. Qed.

Lemma stores_in15_insert l j w : in15 w -> stores_in15 l (<[j := w]> l).
Proof.
  intros Hw i v H. destruct (decide (i = j)) as [->|Hne].
  - right. destruct (decide (j < length l)%nat) as [Hlt|Hge].
    + rewrite list_lookup_insert_eq in H by exact Hlt. inversion H; subst; exact Hw.
    + rewrite lookup_ge_None_2 in H by (rewrite length_insert; lia). discriminate.
  - left. rewrite list_lookup_insert_ne in H by auto. exact H.
Qed.

(** What is known of the values that lookups have found. *)
Ltac learn_in15 :=
  repeat match goal with
    | H : ?l !! _ = Some ?v, HF : Forall in15 ?l |- _ =>
        lazymatch goal with
        | _ : in15 v |- _ => fail
        | _ => pose proof (proj1 (Forall_lookup in15 l) HF _ _ H : in15 v)
        end
    | H : ?l !! _ = Some ?v, HF : Forall is_u16 ?l, Hle : ?v <= 32767 |- _ =>
        lazymatch goal with
        | _ : in15 v |- _ => fail
        | _ =>
            let Hu := fresh in
            pose proof (proj1 (Forall_lookup is_u16 l) HF _ _ H) as Hu;
            assert (in15 v) by (unfold in15, is_u16 in *; lia); clear Hu
        end
    | H : memory _ !! _ = Some ?v, HR : forall v, _ -> in15 v |- _ =>
        lazymatch goal with
        | _ : in15 v |- _ => fail
        | _ => pose proof (HR _ H : in15 v)
        end
    end.

(** C3, as the code has it.  Take a state whose registers, stack entries and
    input characters, pending and to come, are in [0, 32767].  A step that
    completes leaves every register
    in [0, 32767], and every memory cell it has changed holds a value in
    [0, 32767], provided that, when the instruction is RMEM, the cell it
    loads holds a value in [0, 32767]: RMEM copies the cell as it is.  The
    input stays in range, and so does the stack unless the instruction is at
    address 32766 (a CALL there pushes 32768). *)
Theorem stores_stay_in_range m op args u m' :
  wf m -> ranged m -> fetch m = Done ((op, args), m) ->
  (opcode_of op = Some RMEM ->
   forall b addr m1 v,
     args !! 1%nat = Some b -> readArg b m = Done (addr, m1) ->
     memory m !! Z.to_nat addr = Some v -> in15 v) ->
  Step m = Done (u, m') ->
  Forall in15 (regs m')
  /\ stores_in15 (memory m) (memory m')
  /\ Forall in15 (unused_input m')
  /\ Forall in15 (input m')
  /\ (pc m <> 32766 -> Forall in15 (stack m')).
Proof.
  intros Hwf Hr Hf HR HS.
  pose proof (fetch_Done _ _ _ _ Hwf Hf) as (_ & _ & Hpc0 & Hpc & _ & _ & Hn).
  pose proof (fetch_words _ _ _ Hwf Hf) as Hargs.
  pose proof (refilled_ranged m Hr) as [Hr' Hs' Hu' Hi'].
  destruct Hr as [Hrg Hs Hu Hi].
  rewrite (Step_fetch _ _ _ Hf) in HS. apply bind_Done in HS as (f & m1 & HE & HS).
  unfold execute in HE.
  destruct (opcode_of op) as [i|] eqn:Hop;
    [ destruct i; first [ specialize (HR eq_refl) | clear HR ] | clear HR ];
    repeat exec1.
  all: try match goal with
         | H : readArgAt _ 1 _ = Done _ |- _ =>
             let H' := fresh in
             pose proof H as H';
             apply readArgAt_Done in H' as (? & Hb & Hread);
             pose proof (fun v => HR _ _ _ v Hb Hread) as HR';
             clear HR Hread
         end.
  all: exec_all.
  all: cbn [memory regs stack unused_input input pc set_memory set_regs set_pc
            set_stack set_state set_input set_unused_input set_stdout errored] in *.
  all: same_lookups.
  all: repeat match goal with
         | H : stack _ = _ ++ [_] |- _ =>
             rewrite H in Hs; apply Forall_app in Hs as [? Hv];
             apply Forall_inv in Hv
         end.
  all: learn_in15.
  all: rewrite ?(proj1 (refilled_keeps m)).
  all: repeat match goal with |- _ /\ _ => split end.
  all: try assumption.
  all: try (intros Hne).
  all: try apply stores_in15_refl.
  all: try (apply stores_in15_insert).
  all: try (apply Forall_insert).
  all: try (apply Forall_drop).
  all: try (unfold Push; apply Forall_app; split; [ | apply Forall_singleton ]).
  all: try assumption.
  all: auto with in15.
  all: unfold argsForOp in *; rewrite ?Hop in *; cbn [opcode_args] in *.
  all: rewrite ?Hn; unfold in15; lia.
Qed.

Lemma NewMachine_ranged prog stdin :
  Forall in15 stdin -> ranged (NewMachine prog stdin).
Proof.
  intros H. split; cbn [NewMachine regs stack unused_input input].
  - apply Forall_replicate, in15_0.
  - constructor.
  - constructor.
  - exact H.
Qed.

Lemma stores_stay_in_range_witness :
  let m := NewMachine [9; 32768; 32767; 32767] [] in
  let m' := set_pc 4 (set_regs (<[0%nat := 32766]> (regs m)) m) in
  Forall in15 (regs m')
  /\ stores_in15 (memory m) (memory m')
  /\ Forall in15 (unused_input m')
  /\ Forall in15 (input m')
  /\ (pc m <> 32766 -> Forall in15 (stack m')).
Proof.
  intros m m'.
  apply (stores_stay_in_range m 9 [32768; 32767; 32767] tt m').
  - apply NewMachine_wf. words.
  - apply NewMachine_ranged. constructor.
  - reflexivity.
  - discriminate.
  - reflexivity.
Defined.

(** C3 as stated fails on the image [[15; 32768; 3; 40000]]: the first step,
    RMEM, copies the word 40000 at address 3 into register 0. *)
Lemma rmem_loads_word_out_of_range :
  let m := NewMachine [15; 32768; 3; 40000] [] in
  let m' := set_pc 3 (set_regs (<[0%nat := 40000]> (regs m)) m) in
  Step m = Done (tt, m')
  /\ reachable [15; 32768; 3; 40000] [] m'
  /\ regs m' !! 0%nat = Some 40000
  /\ ~ in15 40000.
Proof.
  intros m m'.
  assert (HS : Step m = Done (tt, m')) by reflexivity.
  split; [ exact HS | ]. split.
  - exact (reach_step _ _ m tt m' (reach_new _ _) eq_refl HS).
  - split; [ reflexivity | unfold in15; lia ].
Qed.

(** ** Where results go *)

Lemma storeDest_Done args a v m u m1 :
  length (memory m) = Z.to_nat 32768 -> is_u16 a ->
  args !! 0%nat = Some a -> storeDest args v m = Done (u, m1) ->
  (32768 <= a <= 32775
   /\ m1 = set_regs (<[Z.to_nat (a - 32768) := v]> (regs m)) m)
  \/ (a <= 32767 /\ m1 = set_memory (<[Z.to_nat a := v]> (memory m)) m).
Proof.
  intros Hlen Hu Ha H. unfold is_u16 in Hu. unfold storeDest in H.
  rewrite (bind_eq _ _ _ _ _ (index_eq args 0 a m Ha)) in H.
  destruct (isReg a) eqn:Hr.
  - apply isReg_true in Hr.
    rewrite (bind_eq _ _ _ _ _ (index_eq args 0 a m Ha)) in H.
    apply storeReg_Done in H as [_ ->].
    rewrite decipherReg_reg by lia. left. split; [ lia | reflexivity ].
  - apply isReg_false in Hr.
    rewrite (bind_eq _ _ _ _ _ (index_eq args 0 a m Ha)) in H.
    apply storeMem_Done in H as [Hlt ->]. rewrite Hlen in Hlt.
    right. split; [ lia | reflexivity ].
Qed.

(** The end of a case that stores a result: the store into [mb], a state
    with the memory and the registers of [m], and the update of the program
    counter. *)
Lemma stored_then_advanced m mb op args a v mc u m' :
  wf m -> memory mb = memory m -> regs mb = regs m -> is_u16 a ->
  args !! 0%nat = Some a ->
  storeDest args v mb = Done (tt, mc) -> advance op mc = Done (u, m') ->
  (32768 <= a <= 32775 ->
   regs m' = <[Z.to_nat (a - 32768) := v]> (regs m) /\ memory m' = memory m)
  /\ (a <= 32767 ->
      memory m' = <[Z.to_nat a := v]> (memory m) /\ regs m' = regs m)
  /\ a <= 32775.
Proof.
  intros Hwf Em Er Hu Ha Hst Hadv.
  unfold advance, modify in Hadv. inversion Hadv; subst m'. clear Hadv.
  assert (Hlen : length (memory mb) = Z.to_nat 32768)
    by (rewrite Em; exact (wf_memory _ Hwf)).
  destruct (storeDest_Done _ _ _ _ _ _ Hlen Hu Ha Hst) as [[Hr ->]|[Hr ->]];
    cbn [memory regs set_pc set_regs set_memory]; rewrite ?Em, ?Er.
  - split; [ intros _; split; reflexivity | split; [ intros; lia | lia ] ].
  - split; [ intros; lia | split; [ intros _; split; reflexivity | lia ] ].
Qed.

(** A case that reads two operands, computes and stores. *)
Ltac binary_case :=
  match goal with
  | Hwf : wf ?m, Hu : is_u16 ?a, Ha : ?args !! 0%nat = Some ?a,
    HS : _ = Done (_, _),
    HE : bind (readArgAt ?args 1) _ ?m = Done (?f, ?m1) |- _ =>
      let vb := fresh "vb" in let vc := fresh "vc" in
      let ma := fresh "ma" in let mb := fresh "mb" in
      let mc := fresh "mc" in
      let Hb := fresh "Hb" in let Hc := fresh "Hc" in
      let Hst := fresh "Hst" in
      let b := fresh "b" in let c := fresh "c" in
      let Hrb := fresh "Hrb" in let Hrc := fresh "Hrc" in
      apply bind_Done in HE as (vb & ma & Hb & HE);
      apply bind_Done in HE as (vc & mb & Hc & HE); cbv beta zeta in HE;
      apply bind_Done in HE as ([] & mc & Hst & HE); inversion HE; subst f m1;
      apply readArgAt_Done in Hb as (b & Hb & Hrb);
      apply readArgAt_Done in Hc as (c & Hc & Hrc);
      pose proof (readArg_keeps _ _ _ _ Hrb) as (? & ? & _);
      pose proof (readArg_keeps _ _ _ _ Hrc) as (? & ? & _);
      match type of Hst with
      | storeDest _ ?v _ = _ =>
          exists v; split; [ intros; discriminate | ]; split;
          [ intros _; exists b, vb, ma; split; [ exact Hb | ];
            split; [ exact Hrb | ]; split; [ intros; discriminate | ];
            intros _; exists c, vc, mb; repeat split; assumption
          | exact (stored_then_advanced m mb _ _ _ _ _ _ _ Hwf
                     ltac:(congruence) ltac:(congruence) Hu Ha Hst HS) ]
      end
  end.

(** C4, as the code has it.  POP (on a stack that is not empty) and the
    arithmetic and logical instructions EQ, GT, ADD, MULT, MOD, AND, OR and
    NOT, when they complete, store their result [v] according to the first
    operand [a] as it stands: in register [a - 32768] when [a] is in
    [32768, 32775], leaving the memory alone, and in memory cell [a] when
    [a] is at most 32767, leaving the registers alone; no other operand
    lets the step complete.  The result is the value popped for POP, the
    complement of the value read for the second operand for NOT, and for
    the others what the instruction computes from the values read for the
    second and the third operand.  WMEM is different: it resolves its first
    operand as a value, writes the memory cell at that address, the address
    held by the register when the operand names one, and never writes a
    register. *)
Theorem write_target m op i args a u m' :
  wf m -> fetch m = Done ((op, args), m) -> opcode_of op = Some i ->
  args !! 0%nat = Some a -> (i = POP -> stack m <> []) ->
  Step m = Done (u, m') ->
  (writes_dest i = true ->
   exists v,
     (i = POP -> exists s, stack m = s ++ [v] /\ stack m' = s)
     /\ (i <> POP ->
         exists b vb m1,
           args !! 1%nat = Some b /\ readArg b m = Done (vb, m1)
           /\ (i = NOT -> v = Z.lxor vb MAX_15BIT)
           /\ (i <> NOT ->
               exists c vc m2,
                 args !! 2%nat = Some c /\ readArg c m1 = Done (vc, m2)
                 /\ v = result_of i vb vc))
     /\ (32768 <= a <= 32775 ->
         regs m' = <[Z.to_nat (a - 32768) := v]> (regs m)
         /\ memory m' = memory m)
     /\ (a <= 32767 ->
         memory m' = <[Z.to_nat a := v]> (memory m) /\ regs m' = regs m)
     /\ a <= 32775)
  /\ (i = WMEM ->
      exists b addr v m1 m2,
        args !! 1%nat = Some b
        /\ readArg a m = Done (addr, m1) /\ readArg b m1 = Done (v, m2)
        /\ memory m' = <[Z.to_nat addr := v]> (memory m)
        /\ regs m' = regs m
        /\ (32768 <= a <= 32775 ->
            regs m !! Z.to_nat (a - 32768) = Some addr)).
Proof.
  intros Hwf Hf Hop Ha Hpop HS.
  assert (Hu : is_u16 a).
  { pose proof (fetch_words _ _ _ Hwf Hf) as Hw.
    exact (proj1 (Forall_lookup is_u16 args) Hw _ _ Ha). }
  rewrite (Step_fetch _ _ _ Hf) in HS. apply bind_Done in HS as (f & m1 & HE & HS).
  unfold execute in HE. rewrite Hop in HE. split.
  - intros Hw. destruct i; try discriminate Hw; cbv iota in HE.
    + (* POP *)
      apply bind_Done in HE as ([v ok] & m0 & Hp & HE). cbv beta iota in HE.
      apply stackPop_Done in Hp as [(Hs & _)|(s & Hs & -> & ->)];
        [ destruct (Hpop eq_refl Hs) | ].
      cbn [negb] in HE. cbv iota in HE.
      apply bind_Done in HE as ([] & mc & Hst & HE). inversion HE; subst f m1.
      exists v. split; [ intros _; exists s; split; [ exact Hs | ] | ].
      * destruct (storeDest_Done _ _ _ (set_stack s m) _ _
                    (wf_memory _ Hwf) Hu Ha Hst)
          as [[_ ->]|[_ ->]]; unfold advance, modify in HS; inversion HS;
          reflexivity.
      * split; [ intros Hne; destruct (Hne eq_refl) | ].
        exact (stored_then_advanced m (set_stack s m) _ _ _ _ _ _ _
                 Hwf eq_refl eq_refl Hu Ha Hst HS).
    + binary_case.
    + binary_case.
    + binary_case.
    + binary_case.
    + (* MOD *)
      apply bind_Done in HE as (vb & ma & Hb & HE).
      apply bind_Done in HE as (vc & mb & Hc & HE). cbv beta in HE.
      destruct (vc =? 0); [ discriminate HE | ].
      apply bind_Done in HE as ([] & mc & Hst & HE). inversion HE; subst f m1.
      apply readArgAt_Done in Hb as (b & Hb & Hrb).
      apply readArgAt_Done in Hc as (c & Hc & Hrc).
      pose proof (readArg_keeps _ _ _ _ Hrb) as (Em1 & Er1 & _).
      pose proof (readArg_keeps _ _ _ _ Hrc) as (Em2 & Er2 & _).
      exists (vb mod vc). split; [ intros; discriminate | ].
      split.
      * intros _. exists b, vb, ma. split; [ exact Hb | ].
        split; [ exact Hrb | ]. split; [ intros; discriminate | ].
        intros _. exists c, vc, mb. repeat split; assumption.
      * exact (stored_then_advanced m mb _ _ _ _ _ _ _ Hwf
                 ltac:(congruence) ltac:(congruence) Hu Ha Hst HS).
    + binary_case.
    + binary_case.
    + (* NOT *)
      apply bind_Done in HE as (vb & ma & Hb & HE). cbv beta zeta in HE.
      apply bind_Done in HE as ([] & mc & Hst & HE). inversion HE; subst f m1.
      apply readArgAt_Done in Hb as (b & Hb & Hrb).
      pose proof (readArg_keeps _ _ _ _ Hrb) as (Em1 & Er1 & _).
      exists (Z.lxor vb MAX_15BIT). split; [ intros; discriminate | ].
      split.
      * intros _. exists b, vb, ma. split; [ exact Hb | ].
        split; [ exact Hrb | ]. split; [ reflexivity | ].
        intros Hne; destruct (Hne eq_refl).
      * exact (stored_then_advanced m ma _ _ _ _ _ _ _ Hwf Em1 Er1 Hu Ha Hst HS).
  - intros ->. cbv iota in HE. repeat exec1. unfold advance in HS. repeat exec1.
    repeat match goal with
      | H : readArgAt _ _ _ = Done _ |- _ =>
          apply readArgAt_Done in H as (? & ? & H)
      | H : storeMem _ _ _ = Done _ |- _ => apply storeMem_Done in H as [? ->]
      end.
    same_lookups.
    match goal with
    | H1 : readArg _ _ = Done (?addr, ?m1), H2 : readArg ?b ?m1 = Done (?v, ?m2) |- _ =>
        exists b, addr, v, m1, m2;
        pose proof (readArg_keeps _ _ _ _ H1) as (Em1 & Er1 & _);
        pose proof (readArg_keeps _ _ _ _ H2) as (Em2 & Er2 & _);
        repeat (split; [ first [ assumption | cbn; congruence ] | ]);
        intros Hreg;
        apply readArg_Done in H1 as [(? & _)|[(_ & Hv & _)|(? & _)]]; try lia;
        rewrite decipherReg_reg in Hv by lia; exact Hv
    end.
    Unshelve. all: exact 0.
Qed.

Lemma write_target_witness :
  let m := NewMachine [9; 32768; 2; 3] [] in
  let m' := set_pc 4 (set_regs (<[0%nat := 5]> (regs m)) m) in
  (writes_dest ADD = true ->
   exists v,
     (ADD = POP -> exists s, stack m = s ++ [v] /\ stack m' = s)
     /\ (ADD <> POP ->
         exists b vb m1,
           [32768; 2; 3] !! 1%nat = Some b /\ readArg b m = Done (vb, m1)
           /\ (ADD = NOT -> v = Z.lxor vb MAX_15BIT)
           /\ (ADD <> NOT ->
               exists c vc m2,
                 [32768; 2; 3] !! 2%nat = Some c /\ readArg c m1 = Done (vc, m2)
                 /\ v = result_of ADD vb vc))
     /\ (32768 <= 32768 <= 32775 ->
         regs m' = <[Z.to_nat (32768 - 32768) := v]> (regs m)
         /\ memory m' = memory m)
     /\ (32768 <= 32767 ->
         memory m' = <[Z.to_nat 32768 := v]> (memory m) /\ regs m' = regs m)
     /\ 32768 <= 32775)
  /\ (ADD = WMEM ->
      exists b addr v m1 m2,
        [32768; 2; 3] !! 1%nat = Some b
        /\ readArg 32768 m = Done (addr, m1) /\ readArg b m1 = Done (v, m2)
        /\ memory m' = <[Z.to_nat addr := v]> (memory m)
        /\ regs m' = regs m
        /\ (32768 <= 32768 <= 32775 ->
            regs m !! Z.to_nat (32768 - 32768) = Some addr)).
Proof.
  intros m m'.
  apply (write_target m 9 ADD [32768; 2; 3] 32768 tt m').
  - apply NewMachine_wf. words.
  - reflexivity.
  - reflexivity.
  - reflexivity.
  - discriminate.
  - reflexivity.
Defined.

(** C4 as stated fails on [WMEM 32768 7] with register 0 holding 0: the
    first operand names register 0, yet the step leaves register 0 alone and
    writes 7 into memory cell 0, the address register 0 holds. *)
Lemma wmem_resolves_its_address :
  let m := NewMachine [16; 32768; 7] [] in
  let m' := set_pc 3 (set_memory (<[0%nat := 7]> (memory m)) m) in
  Step m = Done (tt, m')
  /\ isReg 32768 = true
  /\ regs m !! 0%nat = Some 0 /\ regs m' !! 0%nat = Some 0
  /\ regs m' = regs m
  /\ memory m !! 0%nat = Some 16 /\ memory m' !! 0%nat = Some 7.
Proof.
  intros m m'. split; [ reflexivity | ]. repeat split.
Qed.

(** ** [Step] keeps the shape of the machine *)

Ltac learn_u16 :=
  repeat match goal with
    | H : ?l !! _ = Some ?v, HF : Forall is_u16 ?l |- _ =>
        lazymatch goal with
        | _ : is_u16 v |- _ => fail
        | _ => pose proof (proj1 (Forall_lookup is_u16 l) HF _ _ H : is_u16 v)
        end
    end.

Theorem Step_wf m u m' : wf m -> Step m = Done (u, m') -> wf m'.
Proof.
  intros Hwf HS. unfold Step in HS.
  apply bind_Done in HS as ([op args] & m1 & Hf & HS).
  pose proof (fetch_Done _ _ _ _ Hwf Hf) as (-> & _).
  pose proof (fetch_words _ _ _ Hwf Hf) as Hargs.
  pose proof (refilled_wf m Hwf) as [Hm' Hr' Hp' Hw' Hrw' Hs' Hu'].
  destruct Hwf as [Hm Hr Hp Hw Hrw Hs Hu].
  cbv iota beta in HS. apply bind_Done in HS as (f & m1 & HE & HS).
  unfold execute in HE.
  destruct (opcode_of op) as [[]|]; exec_all.
  all: cbn [memory regs stack unused_input input pc set_memory set_regs set_pc
            set_stack set_state set_input set_unused_input set_stdout errored] in *.
  all: same_lookups.
  all: repeat match goal with
         | H : stack _ = _ ++ [_] |- _ =>
             rewrite H in Hs; apply Forall_app in Hs as [? Hv];
             apply Forall_inv in Hv
         end.
  all: learn_u16.
  all: split.
  all: cbn [memory regs stack unused_input input pc set_memory set_regs set_pc
            set_stack set_state set_input set_unused_input set_stdout errored].
  all: rewrite ?length_insert.
  all: try assumption.
  all: try apply is_u16_u16.
  all: try (apply Forall_insert).
  all: try (apply Forall_drop).
  all: try (unfold Push; apply Forall_app; split; [ | apply Forall_singleton ]).
  all: try assumption.
  all: auto with u16.
  all: first [ apply is_u16_u16 | unfold is_u16; lia ].
Qed.

Lemma reachable_wf prog stdin m :
  Forall is_u16 prog -> reachable prog stdin m -> wf m.
Proof.
  intros Hprog. induction 1 as [|m u m' _ IH _ HS].
  - apply NewMachine_wf, Hprog.
  - exact (Step_wf _ _ _ IH HS).
Qed.

(** * More of the machine *)

(** ** Fetching, continued *)

Lemma fetch_eq m op :
  wf m -> memory m !! Z.to_nat (pc m) = Some op ->
  pc m + argsForOp op < 32768 ->
  fetch m
    = Done ((op, take (Z.to_nat (argsForOp op))
                   (drop (Z.to_nat (pc m + 1)) (memory m))), m).
Proof.
  intros Hwf Hop Hle. pose proof (wf_pc _ Hwf) as Hp. unfold is_u16 in Hp.
  pose proof (argsForOp_range op) as Hn.
  unfold fetch. run. rewrite (bind_eq _ _ _ _ _ (index_eq _ _ _ m Hop)).
  unfold getArgs. destruct (Z.ltb_spec 0 (argsForOp op)) as [Hpos|Hz].
  - run. rewrite (u16_small (pc m + 1)) by lia.
    rewrite (u16_small (pc m + 1 + argsForOp op)) by lia.
    unfold slice. rewrite (wf_memory _ Hwf).
    destruct (Z.leb_spec (pc m + 1) (pc m + 1 + argsForOp op)); [ | lia ].
    destruct (Z.leb_spec (pc m + 1 + argsForOp op) (Z.of_nat (Z.to_nat 32768)));
      [ | lia ].
    cbn [andb]. run.
    replace (pc m + 1 + argsForOp op - (pc m + 1)) with (argsForOp op) by lia.
    reflexivity.
  - run. replace (argsForOp op) with 0 by lia. reflexivity.
Qed.

Lemma Step_Done_fetch m u m' :
  wf m -> Step m = Done (u, m') ->
  exists op args,
    fetch m = Done ((op, args), m)
    /\ memory m !! Z.to_nat (pc m) = Some op.
Proof.
  intros Hwf HS. unfold Step in HS.
  apply bind_Done in HS as ([op args] & m1 & Hf & _).
  pose proof (fetch_Done _ _ _ _ Hwf Hf) as (-> & Hop & _). eauto.
Qed.

Lemma Step_unknown m w :
  wf m -> memory m !! Z.to_nat (pc m) = Some w -> opcode_of w = None ->
  Step m = Done (tt, set_pc (pc m + 1) (errored (unimplemented w) m)).
Proof.
  intros Hwf Hw Hop.
  assert (Hn : argsForOp w = 0) by (unfold argsForOp; rewrite Hop; reflexivity).
  pose proof (lookup_lt_Some _ _ _ Hw) as Hlt. rewrite (wf_memory _ Hwf) in Hlt.
  pose proof (wf_pc _ Hwf) as Hp. unfold is_u16 in Hp.
  assert (Hf := fetch_eq m w Hwf Hw ltac:(lia)).
  rewrite (Step_fetch _ _ _ Hf). unfold execute. rewrite Hop. run.
  rewrite (bind_eq _ _ _ _ _ (Error_eq (unimplemented w) m)). run.
  unfold advance, modify, nextProgramCounter.
  cbn [pc errored set_state set_stdout]. rewrite Hn, Z.add_0_r.
  rewrite !(u16_small (pc m + 1)) by lia. reflexivity.
Qed.

Lemma set_pc_wf p m : wf m -> is_u16 p -> wf (set_pc p m).
Proof. intros [? ? ? ? ? ? ?] Hp. split; assumption. Qed.

Lemma set_state_wf st m : wf m -> wf (set_state st m).
Proof. intros [? ? ? ? ? ? ?]. split; assumption. Qed.

(** ** What a step leaves alone *)

Lemma refilled_stdout m : stdout (refilled m) = stdout m ++ runes "Input: ".
Proof. unfold refilled. destruct (ReadString 10 (input m)); reflexivity. Qed.

Lemma refilled_input m :
  input m = fst (ReadString 10 (input m)) ++ input (refilled m).
Proof.
  destruct (refilled_keeps m) as (_ & _ & _ & _ & _ & -> & _).
  symmetry. apply ReadString_app.
Qed.

(** One pass over the [switch]: what every completed step does to each part
    of the machine, by instruction. *)
Lemma Step_effects m op args i u m' :
  wf m -> fetch m = Done ((op, args), m) -> opcode_of op = Some i ->
  Step m = Done (u, m') ->
  (state m' = state m \/ state m' = ERROR \/ (i = HALT /\ state m' = HALTED))
  /\ (exists out, stdout m' = stdout m ++ out)
  /\ (exists used, input m = used ++ input m')
  /\ (i <> IN -> input m' = input m /\ unused_input m' = unused_input m)
  /\ (i <> OUT -> i <> IN -> stdout m' = stdout m \/ state m' = ERROR)
  /\ (writes_memory i = false -> memory m' = memory m)
  /\ (writes_regs i = false -> regs m' = regs m)
  /\ stack_effect i m m'
  /\ (transfers i = false -> (i = POP -> stack m <> []) ->
      pc m' = pc m + 1 + opcode_args i)
  /\ (i = HALT -> pc m' = pc m).
Proof.
  intros Hwf Hf Hop HS.
  pose proof (fetch_Done _ _ _ _ Hwf Hf) as (_ & _ & _ & _ & _ & _ & Hn).
  unfold argsForOp in Hn. rewrite Hop in Hn.
  destruct (refilled_keeps m) as (Em & Er & Ep & Es & Est & _ & _).
  pose proof (refilled_stdout m) as Eo. pose proof (refilled_input m) as Ei.
  rewrite (Step_fetch _ _ _ Hf) in HS. apply bind_Done in HS as (f & m1 & HE & HS).
  unfold execute in HE. rewrite Hop in HE.
  destruct i; cbv iota in HE; exec_all.
  all: unfold nextProgramCounter, argsForOp in *; rewrite ?Hop in *.
  all: cbn [memory regs stack unused_input input pc state stdout set_memory
            set_regs set_pc set_stack set_state set_input set_unused_input
            set_stdout errored stack_effect writes_memory writes_regs
            transfers opcode_args] in *.
  all: rewrite ?Em, ?Er, ?Ep, ?Es, ?Est, ?Eo.
  all: repeat match goal with |- _ /\ _ => split end.
  all: try (intros; discriminate).
  all: try (intros; congruence).
  all: try (intros; rewrite ?Hn; reflexivity).
  all: try (left; reflexivity).
  all: try (right; left; reflexivity).
  all: try (right; reflexivity).
  all: try (right; right; split; reflexivity).
  all: try match goal with
         | |- exists out, ?x = ?x ++ out => exists []; symmetry; apply app_nil_r
         | |- exists used, ?x = used ++ ?x => exists []; reflexivity
         | |- exists used, input _ = used ++ input (refilled _) =>
             eexists; exact Ei
         | |- exists out, ?x ++ ?y = ?x ++ out => exists y; reflexivity
         | |- exists out, (?x ++ ?y) ++ ?z = ?x ++ out =>
             exists (y ++ z); symmetry; apply app_assoc
         | |- exists out, ((?x ++ ?y) ++ ?z) ++ ?t = ?x ++ out =>
             exists (y ++ z ++ t); rewrite <- !app_assoc; reflexivity
         | |- exists v, Push ?a ?s = ?s ++ [v] => exists a; reflexivity
         | |- _ -> _ /\ _ => intros; split; reflexivity
         | |- _ \/ (exists v, ?s = ?x ++ [v]) => right; eexists; eassumption
         | |- (_ /\ _ /\ _) \/ _ => left; repeat split; assumption
         | H : stack _ = [] |- _ -> (_ -> stack _ <> []) -> _ =>
             intros _ Hne; destruct (Hne eq_refl H)
         end.
Qed.

Lemma instr_at_fetch m u m' i :
  wf m -> Step m = Done (u, m') -> instr_at m = Some i ->
  exists op args, fetch m = Done ((op, args), m) /\ opcode_of op = Some i.
Proof.
  intros Hwf HS Hi. destruct (Step_Done_fetch _ _ _ Hwf HS) as (op & args & Hf & Hop).
  unfold instr_at in Hi. rewrite Hop in Hi. eauto.
Qed.

(** X1.  A step never puts a machine back to RUNNING: after a step that
    completes the state is the one before it, or ERROR, or HALTED when the
    instruction is HALT. *)
Theorem step_never_resumes m u m' :
  wf m -> Step m = Done (u, m') ->
  (state m' = state m \/ state m' = ERROR
   \/ (instr_at m = Some HALT /\ state m' = HALTED))
  /\ (state m' = RUNNING -> state m = RUNNING).
Proof.
  intros Hwf HS.
  assert (H : state m' = state m \/ state m' = ERROR
              \/ (instr_at m = Some HALT /\ state m' = HALTED)).
  { destruct (Step_Done_fetch _ _ _ Hwf HS) as (op & args & Hf & Hop).
    destruct (opcode_of op) as [i|] eqn:Hi.
    - destruct (Step_effects _ _ _ _ _ _ Hwf Hf Hi HS) as (Hst & _).
      destruct Hst as [Hst|[Hst|[-> Hst]]]; auto.
      right; right. split; [ | exact Hst ]. unfold instr_at. rewrite Hop. exact Hi.
    - rewrite (Step_unknown _ _ Hwf Hop Hi) in HS. inversion HS. auto. }
  split; [ exact H | ].
  intros Hrun. destruct H as [H|[H|[_ H]]]; congruence.
Qed.

Lemma step_never_resumes_witness :
  let m := set_state ERROR (NewMachine [21] []) in
  let m' := set_pc 1 m in
  (state m' = state m \/ state m' = ERROR
   \/ (instr_at m = Some HALT /\ state m' = HALTED))
  /\ (state m' = RUNNING -> state m = RUNNING).
Proof.
  intros m m'. apply (step_never_resumes m tt m').
  - apply set_state_wf, NewMachine_wf. words.
  - reflexivity.
Defined.

(** X2.  A step only adds to what has been printed and only takes from the
    front of the input; an instruction other than IN leaves the input and
    the pending characters alone, and an instruction other than OUT and IN
    prints nothing unless it ends in ERROR. *)
Theorem step_io m u m' :
  wf m -> Step m = Done (u, m') ->
  stdout m `prefix_of` stdout m'
  /\ input m' `suffix_of` input m
  /\ (instr_at m <> Some IN ->
      input m' = input m /\ unused_input m' = unused_input m)
  /\ (instr_at m <> Some OUT -> instr_at m <> Some IN ->
      stdout m' = stdout m \/ state m' = ERROR).
Proof.
  intros Hwf HS.
  destruct (Step_Done_fetch _ _ _ Hwf HS) as (op & args & Hf & Hop).
  unfold instr_at. rewrite Hop.
  destruct (opcode_of op) as [i|] eqn:Hi.
  - destruct (Step_effects _ _ _ _ _ _ Hwf Hf Hi HS)
      as (_ & Hout & Hin & Hkeep & Hquiet & _).
    split; [ exact Hout | ]. split; [ exact Hin | ]. split.
    + intros Hne. apply Hkeep. congruence.
    + intros Ho Hn. apply Hquiet; congruence.
  - rewrite (Step_unknown _ _ Hwf Hop Hi) in HS. inversion HS; subst.
    split; [ eexists; reflexivity | ]. split; [ exists []; reflexivity | ].
    split; [ intros _; split; reflexivity | intros _ _; right; reflexivity ].
Qed.

Lemma step_io_witness :
  let m := NewMachine [19; 65] [66] in
  let m' := set_pc 2 (set_stdout [65] m) in
  stdout m `prefix_of` stdout m'
  /\ input m' `suffix_of` input m
  /\ (instr_at m <> Some IN ->
      input m' = input m /\ unused_input m' = unused_input m)
  /\ (instr_at m <> Some OUT -> instr_at m <> Some IN ->
      stdout m' = stdout m \/ state m' = ERROR).
Proof.
  intros m m'. apply (step_io m tt m').
  - apply NewMachine_wf. words.
  - reflexivity.
Defined.

(** X3.  Only the instructions with a store to memory in their case (POP,
    the arithmetic and logical ones, WMEM and IN) can change the memory, and
    only those with a store to a register (SET, POP, the arithmetic and
    logical ones, RMEM and IN) can change a register: a step of any other
    instruction leaves the memory, or the registers, as they were. *)
Theorem step_frame m u m' i :
  wf m -> Step m = Done (u, m') -> instr_at m = Some i ->
  (writes_memory i = false -> memory m' = memory m)
  /\ (writes_regs i = false -> regs m' = regs m).
Proof.
  intros Hwf HS Hi.
  destruct (instr_at_fetch _ _ _ _ Hwf HS Hi) as (op & args & Hf & Hop).
  destruct (Step_effects _ _ _ _ _ _ Hwf Hf Hop HS)
    as (_ & _ & _ & _ & _ & Hmem & Hregs & _).
  split; assumption.
Qed.

Lemma step_frame_witness :
  let m := NewMachine [2; 7] [] in
  let m' := set_pc 2 (set_stack [7] m) in
  (writes_memory PUSH = false -> memory m' = memory m)
  /\ (writes_regs PUSH = false -> regs m' = regs m).
Proof.
  intros m m'. apply (step_frame m tt m' PUSH).
  - apply NewMachine_wf. words.
  - reflexivity.
  - reflexivity.
Defined.

(** X4.  The stack changes by one element at its top or not at all: PUSH
    and CALL add one element, POP and RET take the last one off, or find the
    stack empty and end in ERROR with the stack still empty, and every other
    instruction leaves the stack as it was. *)
Theorem step_stack m u m' i :
  wf m -> Step m = Done (u, m') -> instr_at m = Some i ->
  stack_effect i m m'.
Proof.
  intros Hwf HS Hi.
  destruct (instr_at_fetch _ _ _ _ Hwf HS Hi) as (op & args & Hf & Hop).
  destruct (Step_effects _ _ _ _ _ _ Hwf Hf Hop HS)
    as (_ & _ & _ & _ & _ & _ & _ & Hstack & _).
  exact Hstack.
Qed.

Lemma step_stack_witness :
  let m := NewMachine [2; 7] [] in
  let m' := set_pc 2 (set_stack [7] m) in
  stack_effect PUSH m m'.
Proof.
  intros m m'. apply (step_stack m tt m' PUSH).
  - apply NewMachine_wf. words.
  - reflexivity.
  - reflexivity.
Defined.

(** X5.  After an instruction that does not transfer control (any but HALT,
    JMP, JT, JF, CALL and RET; POP only on a stack that is not empty) the
    program counter is past the instruction and its operands, at most at
    32768 and never wrapped around; HALT leaves it where it is. *)
Theorem step_pc m u m' i :
  wf m -> Step m = Done (u, m') -> instr_at m = Some i ->
  (transfers i = false -> (i = POP -> stack m <> []) ->
   pc m' = pc m + 1 + opcode_args i /\ pc m' <= 32768)
  /\ (i = HALT -> pc m' = pc m).
Proof.
  intros Hwf HS Hi.
  destruct (instr_at_fetch _ _ _ _ Hwf HS Hi) as (op & args & Hf & Hop).
  destruct (Step_effects _ _ _ _ _ _ Hwf Hf Hop HS)
    as (_ & _ & _ & _ & _ & _ & _ & _ & Hpc & Hhalt).
  split; [ | exact Hhalt ].
  intros Ht Hpop. split; [ apply Hpc; assumption | ].
  rewrite (Hpc Ht Hpop).
  destruct (fetch_Done _ _ _ _ Hwf Hf) as (_ & _ & _ & Hle & _).
  unfold argsForOp in Hle. rewrite Hop in Hle. lia.
Qed.

Lemma step_pc_witness :
  let m := NewMachine [2; 7] [] in
  let m' := set_pc 2 (set_stack [7] m) in
  (transfers PUSH = false -> (PUSH = POP -> stack m <> []) ->
   pc m' = pc m + 1 + opcode_args PUSH /\ pc m' <= 32768)
  /\ (PUSH = HALT -> pc m' = pc m).
Proof.
  intros m m'. apply (step_pc m tt m' PUSH).
  - apply NewMachine_wf. words.
  - reflexivity.
  - reflexivity.
Defined.

(** ** Words that are not instructions, and instructions off the end *)

Lemma opcode_of_None w : w < 0 \/ 21 < w -> opcode_of w = None.
Proof.
  intros H. destruct w as [|p|p]; [ lia | | reflexivity ].
  do 5 (try destruct p as [p|p|]); try reflexivity; lia.
Qed.

(** X6.  A word that is no opcode (any word above 21) is reported and puts
    the machine in state ERROR, and the program counter still moves on by
    one.  The message never names the word: the name looked up for it is
    empty, so what is printed is UNIMPLEMENTED INSTRUCTION, two double
    quotes, a full stop and three newlines. *)
Theorem unknown_opcode m w :
  wf m -> memory m !! Z.to_nat (pc m) = Some w -> 21 < w ->
  Step m = Done (tt, set_pc (pc m + 1) (errored (unimplemented w) m))
  /\ state (set_pc (pc m + 1) (errored (unimplemented w) m)) = ERROR
  /\ runes (unimplemented w) ++ [10]
     = runes "UNIMPLEMENTED INSTRUCTION " ++ [34; 34; 46; 10; 10; 10].
Proof.
  intros Hwf Hw Hgt. assert (Hop := opcode_of_None w (or_intror Hgt)).
  split; [ apply Step_unknown; assumption | ]. split; [ reflexivity | ].
  unfold unimplemented, opsToString. rewrite Hop. reflexivity.
Qed.

Lemma unknown_opcode_witness :
  let m := NewMachine [77] [] in
  Step m = Done (tt, set_pc (pc m + 1) (errored (unimplemented 77) m))
  /\ state (set_pc (pc m + 1) (errored (unimplemented 77) m)) = ERROR
  /\ runes (unimplemented 77) ++ [10]
     = runes "UNIMPLEMENTED INSTRUCTION " ++ [34; 34; 46; 10; 10; 10].
Proof.
  intros m. apply (unknown_opcode m 77).
  - apply NewMachine_wf. words.
  - reflexivity.
  - lia.
Defined.

(** X7.  A step panics when the instruction does not lie inside the memory:
    with an index out of range when the program counter is 32768 or more,
    and with slice bounds out of range when the operands of the instruction
    at the program counter would reach past cell 32767. *)
Theorem step_outside_memory m :
  wf m ->
  (32768 <= pc m -> Step m = Panic IndexOutOfRange)
  /\ (forall op,
        memory m !! Z.to_nat (pc m) = Some op ->
        32768 <= pc m + argsForOp op ->
        Step m = Panic SliceBoundsOutOfRange).
Proof.
  intros Hwf. pose proof (wf_pc _ Hwf) as Hp. unfold is_u16 in Hp. split.
  - intros Hge. unfold Step, fetch. run.
    rewrite (bind_panic _ _ _ _ (index_panic (memory m) (pc m) m ltac:(
      apply lookup_ge_None_2; rewrite (wf_memory _ Hwf); lia))).
    reflexivity.
  - intros op Hop Hge.
    pose proof (lookup_lt_Some _ _ _ Hop) as Hlt. rewrite (wf_memory _ Hwf) in Hlt.
    pose proof (argsForOp_range op) as Hn.
    unfold Step, fetch. run. rewrite (bind_eq _ _ _ _ _ (index_eq _ _ _ m Hop)).
    unfold getArgs. destruct (Z.ltb_spec 0 (argsForOp op)) as [Hpos|Hz]; [ | lia ].
    run. rewrite (u16_small (pc m + 1)) by lia.
    rewrite (u16_small (pc m + 1 + argsForOp op)) by lia.
    unfold slice. rewrite (wf_memory _ Hwf).
    destruct (Z.leb_spec (pc m + 1 + argsForOp op) (Z.of_nat (Z.to_nat 32768)));
      [ lia | ].
    rewrite andb_false_r. reflexivity.
Qed.

Lemma step_outside_memory_witness :
  let m := set_pc 32768 (NewMachine [] []) in
  (32768 <= pc m -> Step m = Panic IndexOutOfRange)
  /\ (forall op,
        memory m !! Z.to_nat (pc m) = Some op ->
        32768 <= pc m + argsForOp op ->
        Step m = Panic SliceBoundsOutOfRange).
Proof.
  intros m. apply (step_outside_memory m).
  apply set_pc_wf; [ apply NewMachine_wf; words | unfold is_u16; lia ].
Defined.

(** ** A fresh machine *)

(** X8.  The memory of a fresh machine has 32768 cells whatever the length
    of the image: cell [i] holds word [i] of the image when there is one and
    0 otherwise, and the words of an image beyond the first 32768 are
    dropped. *)
Theorem NewMachine_memory prog stdin i :
  length (memory (NewMachine prog stdin)) = Z.to_nat 32768
  /\ memory (NewMachine prog stdin) !! i
     = if decide (i < Z.to_nat 32768)%nat
       then Some (default 0 (prog !! i))
       else None.
Proof.
  cbn [NewMachine memory]. set (n := Z.to_nat 32768). split.
  - rewrite length_app, length_take, length_replicate. lia.
  - destruct (decide (i < n)%nat) as [Hi|Hi].
    + destruct (decide (i < length prog)%nat) as [Hp|Hp].
      * rewrite lookup_app_l by (rewrite length_take; lia).
        rewrite lookup_take_lt by exact Hi.
        destruct (lookup_lt_is_Some_2 prog i Hp) as [x ->]. reflexivity.
      * rewrite lookup_app_r by (rewrite length_take; lia).
        rewrite (lookup_ge_None_2 prog i) by lia.
        rewrite length_take. apply lookup_replicate_2. lia.
    + apply lookup_ge_None_2.
      rewrite length_app, length_take, length_replicate. lia.
Qed.

(** ** Operands and the stack *)

(** X9.  Reading a valid operand changes nothing: a word [v] in [0, 32767]
    is read as [v] itself, and the word [32768 + r] with [r] below 8 is read
    as the content of register [r]. *)
Theorem read_resolution m :
  wf m ->
  (forall v, 0 <= v <= 32767 -> readArg v m = Done (v, m))
  /\ (forall r, 0 <= r < 8 ->
      exists x, regs m !! Z.to_nat r = Some x
                /\ readArg (32768 + r) m = Done (x, m)).
Proof.
  intros Hwf. split.
  - intros v Hv. apply readArg_value. lia.
  - intros r Hr.
    destruct (lookup_lt_is_Some_2 (regs m) (Z.to_nat r)) as [x Hx].
    { rewrite (wf_regs _ Hwf). unfold NREGS. lia. }
    exists x. split; [ exact Hx | ].
    rewrite readArg_reg by lia. rewrite decipherReg_reg by lia.
    apply index_eq. replace (32768 + r - 32768) with r by lia. exact Hx.
Qed.

Lemma read_resolution_witness :
  let m := NewMachine [] [] in
  (forall v, 0 <= v <= 32767 -> readArg v m = Done (v, m))
  /\ (forall r, 0 <= r < 8 ->
      exists x, regs m !! Z.to_nat r = Some x
                /\ readArg (32768 + r) m = Done (x, m)).
Proof.
  intros m. apply (read_resolution m). apply NewMachine_wf. words.
Defined.

Lemma Pop_Push v s : Pop (Push v s) = (v, true, s).
Proof.
  unfold Pop, Push, IsEmpty.
  rewrite bool_decide_eq_false_2 by (rewrite length_app; cbn; lia).
  rewrite length_app; cbn [length].
  replace (length s + 1 - 1)%nat with (length s) by lia.
  rewrite app_nth2, Nat.sub_diag by lia. cbn [nth].
  rewrite take_app_length. reflexivity.
Qed.

(** X10.  The stack is last in, first out: a [Pop] right after [Push v]
    gives [v] back with the stack as it was, and after pushing the values
    [vs] one by one, as many pops give them back in reverse order and leave
    the stack as it was; [Pop] on the empty stack reports failure and
    leaves it empty. *)
Theorem stack_lifo (vs : list Z) (s : Stack) :
  (forall v, Pop (Push v s) = (v, true, s))
  /\ pop_all (length vs) (foldl (fun s v => Push v s) s vs) = (rev vs, s)
  /\ Pop NewStack = (0, false, NewStack).
Proof.
  split; [ intros v; apply Pop_Push | ]. split; [ | reflexivity ].
  revert s. induction vs as [|v vs IH] using rev_ind; intros s.
  - reflexivity.
  - rewrite foldl_app, length_app, rev_app_distr. cbn [foldl length rev app].
    replace (length vs + 1)%nat with (S (length vs)) by lia.
    cbn [pop_all]. rewrite Pop_Push, IH. reflexivity.
Qed.

(** ** Conditional jumps *)

(** X11.  JT (opcode 7) jumps when its first operand is not zero, JF
    (opcode 8) when it is zero.  When the jump is not taken the second
    operand is not read at all: whatever it is, the step only moves the
    program counter on by three.  When it is taken the program counter
    becomes the value of the second operand. *)
Theorem conditional_jump m op a b va :
  wf m -> op = 7 \/ op = 8 ->
  fetch m = Done ((op, [a; b]), m) -> readArg a m = Done (va, m) ->
  let taken := if op =? 7 then negb (va =? 0) else va =? 0 in
  (taken = false -> Step m = Done (tt, set_pc (pc m + 3) m))
  /\ (taken = true ->
      forall vb m1, readArg b m = Done (vb, m1) ->
      Step m = Done (tt, set_pc vb m1)).
Proof.
  intros Hwf Hop Hf Ha taken.
  destruct (fetch_Done _ _ _ _ Hwf Hf) as (_ & _ & _ & _ & _ & _ & Hn).
  assert (Hn' : nextProgramCounter op m = pc m + 3)
    by (rewrite Hn; destruct Hop as [-> | ->]; cbn; lia).
  rewrite (Step_fetch _ _ _ Hf). subst taken.
  destruct Hop as [-> | ->]; unfold execute; cbn [opcode_of Z.eqb Pos.eqb]; run;
    rewrite (bind_eq (readArgAt [a; b] 0) _ _ va m)
      by (rewrite (readArgAt_eq _ 0 a) by reflexivity; exact Ha);
    destruct (va =? 0); cbn [negb]; run; split; intros Ht; try discriminate Ht.
  - unfold advance, modify. rewrite Hn'. reflexivity.
  - intros vb m1 Hb.
    rewrite (bind_eq (readArgAt [a; b] 1) _ _ vb m1)
      by (rewrite (readArgAt_eq _ 1 b) by reflexivity; exact Hb).
    run. reflexivity.
  - intros vb m1 Hb.
    rewrite (bind_eq (readArgAt [a; b] 1) _ _ vb m1)
      by (rewrite (readArgAt_eq _ 1 b) by reflexivity; exact Hb).
    run. reflexivity.
  - unfold advance, modify. rewrite Hn'. reflexivity.
Qed.

Lemma conditional_jump_witness :
  let m := NewMachine [7; 0; 40000] [] in
  let taken := if 7 =? 7 then negb (0 =? 0) else 0 =? 0 in
  (taken = false -> Step m = Done (tt, set_pc (pc m + 3) m))
  /\ (taken = true ->
      forall vb m1, readArg 40000 m = Done (vb, m1) ->
      Step m = Done (tt, set_pc vb m1)).
Proof.
  intros m. apply (conditional_jump m 7 0 40000 0).
  - apply NewMachine_wf. words.
  - left; reflexivity.
  - reflexivity.
  - reflexivity.
Defined.

(** ** PUSH and POP *)

Lemma Step_PUSH m a v :
  wf m -> fetch m = Done ((2, [a]), m) -> readArg a m = Done (v, m) ->
  Step m = Done (tt, set_pc (pc m + 2) (set_stack (stack m ++ [v]) m)).
Proof.
  intros Hwf Hf Hv.
  destruct (fetch_Done _ _ _ _ Hwf Hf) as (_ & _ & _ & _ & _ & _ & Hn).
  rewrite (Step_fetch _ _ _ Hf). unfold execute; cbn [opcode_of]. run.
  rewrite (bind_eq (readArgAt [a] 0) _ _ v m)
    by (rewrite (readArgAt_eq _ 0 a) by reflexivity; exact Hv).
  unfold stackPush, advance. run. unfold modify.
  change (nextProgramCounter 2 (set_stack (Push v (stack m)) m))
    with (nextProgramCounter 2 m).
  rewrite Hn. replace (pc m + 1 + argsForOp 2) with (pc m + 2) by (cbn; lia).
  reflexivity.
Qed.

Lemma Step_POP_reg m d s v :
  wf m -> fetch m = Done ((3, [d]), m) -> stack m = s ++ [v] ->
  32768 <= d <= 32775 ->
  Step m = Done (tt, set_pc (pc m + 2)
                      (set_regs (<[Z.to_nat (d - 32768) := v]> (regs m))
                         (set_stack s m))).
Proof.
  intros Hwf Hf Hs Hd.
  destruct (fetch_Done _ _ _ _ Hwf Hf) as (_ & _ & _ & _ & _ & _ & Hn).
  rewrite (Step_fetch _ _ _ Hf). unfold execute; cbn [opcode_of]. run.
  rewrite (bind_eq _ _ _ _ _ (stackPop_push _ _ _ Hs)). cbn [negb]. run.
  assert (Hwf' : wf (set_stack s m)).
  { destruct Hwf as [? ? ? ? ? Hst ?]. split; try assumption.
    cbn. rewrite Hs in Hst. apply Forall_app in Hst as [Hst _]. exact Hst. }
  rewrite (bind_eq _ _ _ _ _ (storeDest_reg [d] d v _ Hwf' eq_refl Hd)).
  unfold advance. run. unfold modify, nextProgramCounter in *.
  cbn [pc set_regs set_stack] in *. rewrite Hn.
  replace (pc m + 1 + argsForOp 3) with (pc m + 2) by (cbn; lia).
  reflexivity.
Qed.

(** X12.  PUSH of a valid operand puts its value on the stack, and a POP
    into a register executed later, in any state whose stack is the one the
    PUSH left, writes that value into the register and leaves the stack as
    it was before the PUSH. *)
Theorem push_pop_round_trip m a d :
  wf m -> fetch m = Done ((2, [a]), m) -> 0 <= a <= 32775 ->
  32768 <= d <= 32775 ->
  exists v m1,
    readArg a m = Done (v, m)
    /\ Step m = Done (tt, m1)
    /\ stack m1 = stack m ++ [v]
    /\ forall m2,
         wf m2 -> fetch m2 = Done ((3, [d]), m2) -> stack m2 = stack m1 ->
         Step m2
           = Done (tt, set_pc (pc m2 + 2)
                         (set_regs (<[Z.to_nat (d - 32768) := v]> (regs m2))
                            (set_stack (stack m) m2))).
Proof.
  intros Hwf Hf Ha Hd.
  destruct (readArg_valid a m (wf_regs _ Hwf) Ha) as (v & Hv & _).
  exists v, (set_pc (pc m + 2) (set_stack (stack m ++ [v]) m)).
  split; [ exact Hv | ].
  split; [ apply (Step_PUSH m a v); assumption | ].
  split; [ reflexivity | ].
  intros m2 Hwf2 Hf2 Hs2. cbn [stack set_pc set_stack] in Hs2.
  apply Step_POP_reg; assumption.
Qed.

Lemma push_pop_round_trip_witness :
  let m := NewMachine [2; 7; 3; 32768] [] in
  exists v m1,
    readArg 7 m = Done (v, m)
    /\ Step m = Done (tt, m1)
    /\ stack m1 = stack m ++ [v]
    /\ forall m2,
         wf m2 -> fetch m2 = Done ((3, [32768]), m2) -> stack m2 = stack m1 ->
         Step m2
           = Done (tt, set_pc (pc m2 + 2)
                         (set_regs (<[Z.to_nat (32768 - 32768) := v]> (regs m2))
                            (set_stack (stack m) m2))).
Proof.
  intros m. apply (push_pop_round_trip m 7 32768).
  - apply NewMachine_wf. words.
  - reflexivity.
  - lia.
  - lia.
Defined.

(** ** MOD and NOT *)

(** X13.  MOD panics with an integer division by zero when its last operand
    is read as 0, which is also the case when that operand is invalid
    (32776 or more); otherwise it stores the remainder of the value of its
    second operand by the value of its last. *)
Theorem mod_by_zero m a b c vb m1 vc m2 :
  wf m -> fetch m = Done ((11, [a; b; c]), m) ->
  readArg b m = Done (vb, m1) -> readArg c m1 = Done (vc, m2) ->
  (vc = 0 -> Step m = Panic IntegerDivideByZero)
  /\ (vc <> 0 ->
      Step m = (storeDest [a; b; c] (vb mod vc) ;; advance 11) m2)
  /\ (32776 <= c -> vc = 0).
Proof.
  intros Hwf Hf Hb Hc.
  assert (HS : Step m
               = (if vc =? 0 then throw IntegerDivideByZero
                  else storeDest [a; b; c] (vb mod vc) ;; advance 11) m2).
  { rewrite (Step_fetch _ _ _ Hf). unfold execute; cbn [opcode_of]. run.
    rewrite (bind_eq (readArgAt [a; b; c] 1) _ _ vb m1)
      by (rewrite (readArgAt_eq _ 1 b) by reflexivity; exact Hb).
    run.
    rewrite (bind_eq (readArgAt [a; b; c] 2) _ _ vc m2)
      by (rewrite (readArgAt_eq _ 2 c) by reflexivity; exact Hc).
    destruct (vc =? 0); [ reflexivity | ]. cbv zeta. run. reflexivity. }
  split; [ | split ].
  - intros ->. rewrite HS. reflexivity.
  - intros Hne. rewrite HS. destruct (Z.eqb_spec vc 0); [ contradiction | ].
    reflexivity.
  - intros Hbad. rewrite readArg_invalid in Hc by exact Hbad.
    inversion Hc. reflexivity.
Qed.

Lemma mod_by_zero_witness :
  let m := NewMachine [11; 32768; 7; 0] [] in
  (0 = 0 -> Step m = Panic IntegerDivideByZero)
  /\ (0 <> 0 ->
      Step m = (storeDest [32768; 7; 0] (7 mod 0) ;; advance 11) m)
  /\ (32776 <= 0 -> 0 = 0).
Proof.
  intros m. apply (mod_by_zero m 32768 7 0 7 m 0 m).
  - apply NewMachine_wf. words.
  - reflexivity.
  - reflexivity.
  - reflexivity.
Defined.

Lemma lxor_max15 v : in15 v -> Z.lxor v MAX_15BIT = 32767 - v.
Proof.
  intros Hv. pose proof Hv as [Hv0 Hbits]%in15_bits.
  assert (Hones : forall n, 0 <= n ->
            Z.testbit MAX_15BIT n = if n <? 15 then true else false).
  { intros n Hn. change MAX_15BIT with (Z.ones 15).
    destruct (Z.ltb_spec n 15).
    - apply Z.ones_spec_low; lia.
    - apply Z.ones_spec_high; lia. }
  assert (Hland : Z.land v (Z.lxor v MAX_15BIT) = 0).
  { apply Z.bits_inj'. intros n Hn.
    rewrite Z.land_spec, Z.lxor_spec, Z.bits_0, Hones by exact Hn.
    destruct (Z.ltb_spec n 15).
    - destruct (Z.testbit v n); reflexivity.
    - rewrite Hbits by lia. reflexivity. }
  apply Z.add_nocarry_lxor in Hland.
  rewrite <- Z.lxor_assoc, Z.lxor_nilpotent, Z.lxor_0_l in Hland.
  unfold MAX_15BIT in *. lia.
Qed.

(** X14.  NOT of a value [v] in [0, 32767] stores [32767 - v], the 15-bit
    complement, which is again in [0, 32767]; complementing the result gives
    [v] back. *)
Theorem not_complements m a b v :
  wf m -> fetch m = Done ((14, [a; b]), m) -> readArg b m = Done (v, m) ->
  in15 v ->
  Step m = (storeDest [a; b] (32767 - v) ;; advance 14) m
  /\ in15 (32767 - v)
  /\ Z.lxor (32767 - v) MAX_15BIT = v.
Proof.
  intros Hwf Hf Hb Hv.
  assert (Hv' : in15 (32767 - v)) by (unfold in15 in *; lia).
  split; [ | split; [ exact Hv' | ] ].
  - rewrite (Step_fetch _ _ _ Hf). unfold execute; cbn [opcode_of]. run.
    rewrite (bind_eq (readArgAt [a; b] 1) _ _ v m)
      by (rewrite (readArgAt_eq _ 1 b) by reflexivity; exact Hb).
    cbv zeta. rewrite (lxor_max15 v Hv). run. reflexivity.
  - rewrite (lxor_max15 _ Hv'). lia.
Qed.

Lemma not_complements_witness :
  let m := NewMachine [14; 32768; 5] [] in
  Step m = (storeDest [32768; 5] (32767 - 5) ;; advance 14) m
  /\ in15 (32767 - 5)
  /\ Z.lxor (32767 - 5) MAX_15BIT = 5.
Proof.
  intros m. apply (not_complements m 32768 5 5).
  - apply NewMachine_wf. words.
  - reflexivity.
  - reflexivity.
  - unfold in15; lia.
Defined.

(** ** WMEM and RMEM *)

Lemma Step_WMEM m a b addr v :
  wf m -> fetch m = Done ((16, [a; b]), m) ->
  readArg a m = Done (addr, m) -> readArg b m = Done (v, m) ->
  0 <= addr < 32768 ->
  Step m = Done (tt, set_pc (pc m + 3)
                      (set_memory (<[Z.to_nat addr := v]> (memory m)) m)).
Proof.
  intros Hwf Hf Ha Hb Haddr.
  destruct (fetch_Done _ _ _ _ Hwf Hf) as (_ & _ & _ & _ & _ & _ & Hn).
  rewrite (Step_fetch _ _ _ Hf). unfold execute; cbn [opcode_of]. run.
  rewrite (bind_eq (readArgAt [a; b] 0) _ _ addr m)
    by (rewrite (readArgAt_eq _ 0 a) by reflexivity; exact Ha).
  run.
  rewrite (bind_eq (readArgAt [a; b] 1) _ _ v m)
    by (rewrite (readArgAt_eq _ 1 b) by reflexivity; exact Hb).
  run.
  rewrite (bind_eq _ _ m tt _ (storeMem_eq addr v m ltac:(
    rewrite (wf_memory _ Hwf); lia))).
  unfold advance. run. unfold modify, nextProgramCounter in *.
  cbn [pc set_memory]. rewrite Hn.
  replace (pc m + 1 + argsForOp 16) with (pc m + 3) by (cbn; lia).
  reflexivity.
Qed.

(** X15.  What WMEM writes, RMEM reads back: after WMEM has written [v] at
    an address below 32768, an RMEM from the same address, executed in any
    state with the memory WMEM left, loads [v] into its register. *)
Theorem wmem_rmem_round_trip m a b addr v :
  wf m -> fetch m = Done ((16, [a; b]), m) ->
  readArg a m = Done (addr, m) -> readArg b m = Done (v, m) ->
  0 <= addr < 32768 ->
  exists m1,
    Step m = Done (tt, m1)
    /\ memory m1 = <[Z.to_nat addr := v]> (memory m)
    /\ forall m2 d b',
         wf m2 -> memory m2 = memory m1 ->
         fetch m2 = Done ((15, [d; b']), m2) ->
         readArg b' m2 = Done (addr, m2) -> 32768 <= d <= 32775 ->
         Step m2
           = Done (tt, set_pc (pc m2 + 3)
                         (set_regs (<[Z.to_nat (d - 32768) := v]> (regs m2)) m2)).
Proof.
  intros Hwf Hf Ha Hb Haddr.
  exists (set_pc (pc m + 3) (set_memory (<[Z.to_nat addr := v]> (memory m)) m)).
  split; [ apply (Step_WMEM m a b addr v); assumption | ].
  split; [ reflexivity | ].
  intros m2 d b' Hwf2 Hmem Hf2 Hb' Hd. cbn [memory set_pc set_memory] in Hmem.
  destruct (fetch_Done _ _ _ _ Hwf2 Hf2) as (_ & _ & _ & _ & _ & _ & Hn).
  rewrite (Step_SET_RMEM m2 15 d b' addr m2 (or_intror eq_refl) Hf2 Hb').
  cbn [Z.eqb Pos.eqb].
  assert (Hv : memory m2 !! Z.to_nat addr = Some v).
  { rewrite Hmem. apply list_lookup_insert_eq. rewrite (wf_memory _ Hwf). lia. }
  rewrite (bind_eq _ _ _ _ _ (index_eq _ _ _ m2 Hv)).
  rewrite decipherReg_reg by lia.
  rewrite (bind_eq _ _ m2 tt _ (storeReg_eq (d - 32768) v m2 ltac:(
    rewrite (wf_regs _ Hwf2); unfold NREGS; lia))).
  unfold advance, modify, nextProgramCounter in *. cbn [pc set_regs].
  rewrite Hn. replace (pc m2 + 1 + argsForOp 15) with (pc m2 + 3) by (cbn; lia).
  reflexivity.
Qed.

Lemma wmem_rmem_round_trip_witness :
  let m := NewMachine [16; 100; 7; 15; 32768; 100] [] in
  exists m1,
    Step m = Done (tt, m1)
    /\ memory m1 = <[Z.to_nat 100 := 7]> (memory m)
    /\ forall m2 d b',
         wf m2 -> memory m2 = memory m1 ->
         fetch m2 = Done ((15, [d; b']), m2) ->
         readArg b' m2 = Done (100, m2) -> 32768 <= d <= 32775 ->
         Step m2
           = Done (tt, set_pc (pc m2 + 3)
                         (set_regs (<[Z.to_nat (d - 32768) := 7]> (regs m2)) m2)).
Proof.
  intros m. apply (wmem_rmem_round_trip m 100 7 100 7).
  - apply NewMachine_wf. words.
  - reflexivity.
  - reflexivity.
  - reflexivity.
  - lia.
Defined.

(** ** IN, continued *)

Lemma refill_pending m c l :
  unused_input m = c :: l -> refill m = Done (tt, m).
Proof.
  intros H. unfold refill. run. rewrite H.
  change (bool_decide (length (c :: l) = 0%nat)) with false. reflexivity.
Qed.

(** IN once the buffer [c :: l] is at hand in state [mr]. *)
Lemma Step_IN_with m a mr c l :
  wf mr -> pc mr = pc m -> pc m + 1 < 32768 -> 0 <= pc m ->
  fetch m = Done ((20, [a]), m) -> refill m = Done (tt, mr) ->
  unused_input mr = c :: l ->
  (32768 <= a <= 32775 ->
   Step m = Done (tt, set_pc (pc m + 2)
                       (set_unused_input l
                          (set_regs (<[Z.to_nat (a - 32768) := c]> (regs mr)) mr))))
  /\ (0 <= a <= 32767 ->
      Step m = Done (tt, set_pc (pc m + 2)
                          (set_unused_input l
                             (set_memory (<[Z.to_nat a := c]> (memory mr)) mr)))).
Proof.
  intros Hwf Hpc Hle Hp0 Hf Hr Hbuf.
  assert (Hn : forall x, nextProgramCounter 20 (set_pc (pc m) x) = pc m + 2).
  { intros x. unfold nextProgramCounter. cbn [pc set_pc argsForOp opcode_of opcode_args].
    rewrite (u16_small (pc m + 1)) by lia. rewrite u16_small by lia. lia. }
  rewrite (Step_fetch _ _ _ Hf). unfold execute; cbn [opcode_of]. run.
  rewrite (bind_eq _ _ _ _ _ Hr). cbv beta. run.
  rewrite !(bind_eq (index [a] 0) _ mr a mr) by reflexivity. run.
  split; intros Ha.
  - rewrite (proj2 (isReg_true a) Ha). run.
    rewrite (bind_eq (index [a] 0) _ _ a _) by reflexivity. run. rewrite Hbuf.
    rewrite (bind_eq _ _ _ _ _ (index_eq (c :: l) 0 c mr eq_refl)).
    rewrite decipherReg_reg by lia.
    rewrite (bind_eq _ _ mr tt _ (storeReg_eq (a - 32768) c mr ltac:(
      rewrite (wf_regs _ Hwf); unfold NREGS; lia))).
    unfold advance. run. unfold modify, nextProgramCounter.
    cbn [pc unused_input set_regs set_unused_input]. rewrite Hbuf, Hpc.
    cbn [drop argsForOp opcode_of opcode_args].
    rewrite (u16_small (pc m + 1)) by lia. rewrite u16_small by lia.
    replace (pc m + 1 + 1) with (pc m + 2) by lia. reflexivity.
  - rewrite (proj2 (isReg_false a)) by lia. run.
    rewrite (bind_eq (readArgAt [a] 0) _ _ a mr)
      by (rewrite (readArgAt_eq _ 0 a) by reflexivity; apply readArg_value; lia).
    run. rewrite Hbuf.
    rewrite (bind_eq _ _ _ _ _ (index_eq (c :: l) 0 c mr eq_refl)).
    rewrite (bind_eq _ _ mr tt _ (storeMem_eq a c mr ltac:(
      rewrite (wf_memory _ Hwf); lia))).
    unfold advance. run. unfold modify, nextProgramCounter.
    cbn [pc unused_input set_memory set_unused_input]. rewrite Hbuf, Hpc.
    cbn [drop argsForOp opcode_of opcode_args].
    rewrite (u16_small (pc m + 1)) by lia. rewrite u16_small by lia.
    replace (pc m + 1 + 1) with (pc m + 2) by lia. reflexivity.
Qed.

(** X16.  IN with characters pending takes the first of them and stores it,
    in the register its operand names or in the memory cell at the operand;
    it prints no prompt and leaves the input alone. *)
Theorem in_takes_pending m a c l :
  wf m -> fetch m = Done ((20, [a]), m) -> unused_input m = c :: l ->
  (32768 <= a <= 32775 ->
   Step m = Done (tt, set_pc (pc m + 2)
                       (set_unused_input l
                          (set_regs (<[Z.to_nat (a - 32768) := c]> (regs m)) m))))
  /\ (0 <= a <= 32767 ->
      Step m = Done (tt, set_pc (pc m + 2)
                          (set_unused_input l
                             (set_memory (<[Z.to_nat a := c]> (memory m)) m)))).
Proof.
  intros Hwf Hf Hbuf.
  destruct (fetch_Done _ _ _ _ Hwf Hf) as (_ & _ & Hp0 & Hle & _).
  apply (Step_IN_with m a m c l); try assumption; try reflexivity.
  apply (refill_pending m c l Hbuf).
Qed.

Lemma in_takes_pending_witness :
  let m := set_unused_input [65; 10] (NewMachine [20; 32768] []) in
  (32768 <= 32768 <= 32775 ->
   Step m = Done (tt, set_pc (pc m + 2)
                       (set_unused_input [10]
                          (set_regs (<[Z.to_nat (32768 - 32768) := 65]> (regs m)) m))))
  /\ (0 <= 32768 <= 32767 ->
      Step m = Done (tt, set_pc (pc m + 2)
                          (set_unused_input [10]
                             (set_memory (<[Z.to_nat 32768 := 65]> (memory m)) m)))).
Proof.
  intros m. apply (in_takes_pending m 32768 65 [10]).
  - destruct (NewMachine_wf [20; 32768] [] ltac:(words)) as [? ? ? ? ? ? ?].
    split; try assumption. cbn. words.
  - reflexivity.
  - reflexivity.
Defined.

Lemma ReadString_line line rest :
  Forall (fun x => x <> 10) line ->
  ReadString 10 (line ++ 10 :: rest) = (line ++ [10], rest).
Proof.
  induction 1 as [|x line Hx _ IH]; cbn.
  - reflexivity.
  - destruct (Z.eqb_spec x 10); [ contradiction | ]. rewrite IH. reflexivity.
Qed.

Lemma ReadString_eof s :
  Forall (fun x => x <> 10) s -> ReadString 10 s = (s, []).
Proof.
  induction 1 as [|x s Hx _ IH]; cbn.
  - reflexivity.
  - destruct (Z.eqb_spec x 10); [ contradiction | ]. rewrite IH. reflexivity.
Qed.

(** X17.  IN with nothing pending prints the prompt and takes one line off
    the input, up to and including its newline, or all that is left when no
    newline is to come: the first character of the line, converted to
    16 bits, goes to the register the operand names, the others stay
    pending, the newline last, and the input after the line is left for
    later. *)
Theorem in_reads_a_line m a line rest c l :
  wf m -> fetch m = Done ((20, [a]), m) -> unused_input m = [] ->
  Forall (fun x => x <> 10) line ->
  (input m = line ++ 10 :: rest /\ line ++ [10] = c :: l
   \/ input m = line /\ rest = [] /\ line = c :: l) ->
  32768 <= a <= 32775 ->
  Step m
    = Done (tt, set_pc (pc m + 2)
                  (set_unused_input (map u16 l)
                     (set_regs (<[Z.to_nat (a - 32768) := u16 c]> (regs m))
                        (set_unused_input (map u16 (c :: l))
                           (set_input rest
                              (set_stdout (stdout m ++ runes "Input: ") m)))))).
Proof.
  intros Hwf Hf Hbuf Hline Hin Ha.
  destruct (fetch_Done _ _ _ _ Hwf Hf) as (_ & _ & Hp0 & Hle & _).
  assert (HR : ReadString 10 (input m) = (c :: l, rest)).
  { destruct Hin as [[-> <-]|(-> & -> & <-)].
    - apply ReadString_line; exact Hline.
    - apply ReadString_eof; exact Hline. }
  assert (Hre : refilled m
                = set_unused_input (map u16 (c :: l))
                    (set_input rest (set_stdout (stdout m ++ runes "Input: ") m))).
  { unfold refilled. rewrite HR, Hbuf. reflexivity. }
  assert (Hr : refill m = Done (tt, refilled m)).
  { destruct (refill m) as [[[] mr]|p] eqn:E.
    - apply refill_Done in E as [[Hne _]|[_ ->]]; [ congruence | reflexivity ].
    - unfold refill, Printf in E. revert E. run. rewrite Hbuf.
      change (bool_decide (length (@nil Z) = 0%nat)) with true. cbv iota. run.
      cbn [input set_stdout]. destruct (ReadString 10 (input m)). run.
      discriminate. }
  destruct (Step_IN_with m a (refilled m) (u16 c) (map u16 l)) as [HS _];
    try assumption.
  - apply refilled_wf, Hwf.
  - apply refilled_keeps.
  - rewrite Hre. reflexivity.
  - rewrite (HS Ha), Hre. reflexivity.
Qed.

Lemma in_reads_a_line_witness :
  let m := NewMachine [20; 32768] [104; 105; 10; 120] in
  Step m
    = Done (tt, set_pc (pc m + 2)
                  (set_unused_input (map u16 [105; 10])
                     (set_regs (<[Z.to_nat (32768 - 32768) := u16 104]> (regs m))
                        (set_unused_input (map u16 (104 :: [105; 10]))
                           (set_input [120]
                              (set_stdout (stdout m ++ runes "Input: ") m)))))).
Proof.
  intros m. apply (in_reads_a_line m 32768 [104; 105] [120] 104 [105; 10]).
  - apply NewMachine_wf. words.
  - reflexivity.
  - reflexivity.
  - repeat (constructor; [ discriminate | ]). constructor.
  - left. split; reflexivity.
  - lia.
Defined.

(** ** The run loop *)

Lemma Run_halted fuel m : Halted m = true -> Run fuel m = Done (Some m).
Proof. intros H. destruct fuel; cbn; rewrite H; reflexivity. Qed.

(** X18.  When [Run] comes to an end the machine it returns is halted (in
    state HALTED or ERROR), is the machine it was given when that one was
    halted already, is reached from it by steps taken while running, and is
    the same however much fuel is added. *)
Theorem Run_result fuel m m' :
  Run fuel m = Done (Some m') ->
  Halted m' = true
  /\ (Halted m = true -> m' = m)
  /\ (forall k, Run (fuel + k) m = Done (Some m'))
  /\ (forall prog stdin, reachable prog stdin m -> reachable prog stdin m').
Proof.
  revert m. induction fuel as [|fuel IH]; intros m HR.
  - cbn in HR. destruct (Halted m) eqn:Hm; [ | discriminate ].
    inversion HR; subst. split; [ exact Hm | ]. split; [ reflexivity | ].
    split; [ intros k; apply Run_halted, Hm | auto ].
  - cbn in HR. destruct (Halted m) eqn:Hm.
    + inversion HR; subst. split; [ exact Hm | ]. split; [ reflexivity | ].
      split; [ intros k; apply Run_halted, Hm | auto ].
    + destruct (Step m) as [[u m1]|p] eqn:HS; [ | discriminate ].
      destruct (IH m1 HR) as (Hh & _ & Hk & Hreach).
      split; [ exact Hh | ]. split; [ discriminate | ]. split.
      * intros k. cbn. rewrite Hm, HS. apply Hk.
      * intros prog stdin Hr. apply Hreach.
        exact (reach_step _ _ m u m1 Hr Hm HS).
Qed.

Lemma Run_result_witness :
  let m := NewMachine [21; 0] [] in
  let m' := set_state HALTED (set_pc 1 m) in
  Halted m' = true
  /\ (Halted m = true -> m' = m)
  /\ (forall k, Run (2 + k) m = Done (Some m'))
  /\ (forall prog stdin, reachable prog stdin m -> reachable prog stdin m').
Proof.
  intros m m'. apply (Run_result 2 m m'). reflexivity.
Defined.

(** * The loader *)

Import Loader.

Lemma byteZ_range b : 0 <= byteZ b < 256.
Proof.
  unfold byteZ. pose proof (Byte.to_N_bounded b). lia.
Qed.

Lemma word_of_bytes lo hi :
  Z.lor (byteZ lo) (u16 (Z.shiftl (byteZ hi) 8)) = byteZ lo + 256 * byteZ hi.
Proof.
  pose proof (byteZ_range lo) as Hlo. pose proof (byteZ_range hi) as Hhi.
  rewrite Z.shiftl_mul_pow2 by lia. rewrite u16_small by lia.
  assert (Hland : Z.land (byteZ lo) (byteZ hi * 2 ^ 8) = 0).
  { apply Z.bits_inj'. intros n Hn. rewrite Z.land_spec, Z.bits_0.
    destruct (Z_lt_le_dec n 8) as [Hlt|Hge].
    - rewrite Z.mul_pow2_bits_low by exact Hlt. apply andb_false_r.
    - assert (Hb : 0 <= byteZ lo < 2 ^ 8) by (change (2 ^ 8) with 256; lia).
      apply (below_pow2_bits 8) in Hb as [_ Hb]; [ | lia ].
      rewrite Hb by exact Hge. reflexivity. }
  rewrite <- (Z.lxor_lor _ _ Hland), <- (Z.add_nocarry_lxor _ _ Hland).
  change (2 ^ 8) with 256. lia.
Qed.

Lemma word_is_u16 lo hi : is_u16 (byteZ lo + 256 * byteZ hi).
Proof.
  pose proof (byteZ_range lo). pose proof (byteZ_range hi). unfold is_u16. lia.
Qed.

Lemma le_pairs_u16 l : Forall is_u16 (le_pairs l).
Proof.
  revert l. fix IH 1. intros [|lo [|hi rest]]; cbn; try constructor.
  - apply word_is_u16.
  - apply IH.
Qed.

Lemma le_pairs_snoc l lo hi :
  Nat.Even (length l) -> le_pairs (l ++ [lo; hi]) = le_pairs l ++ [byteZ lo + 256 * byteZ hi].
Proof.
  revert l. fix IH 1. intros [|a [|b rest]] He; cbn.
  - reflexivity.
  - destruct He as [k Hk]. cbn in Hk. lia.
  - rewrite IH; [ reflexivity | ].
    destruct He as [k Hk]. cbn in Hk. exists (k - 1)%nat. lia.
Qed.

Lemma le_pairs_length l : (length (le_pairs l) = length l / 2)%nat.
Proof.
  revert l. fix IH 1. intros [|a [|b rest]]; cbn [le_pairs length].
  - reflexivity.
  - reflexivity.
  - rewrite IH. change (S (S (length rest))) with (2 + length rest)%nat.
    replace (2 + length rest)%nat with (length rest + 1 * 2)%nat by lia.
    rewrite Nat.div_add by lia. lia.
Qed.

(** One round of the loop at an index with two bytes of capacity left. *)
Lemma words_round inclusive fuel bin i prog lo hi :
  0 <= i -> goes_on inclusive bin i = true ->
  backing bin !! Z.to_nat i = Some lo ->
  backing bin !! Z.to_nat (i + 1) = Some hi ->
  words inclusive (S fuel) bin i prog
    = words inclusive fuel bin (i + 2) (prog ++ [byteZ lo + 256 * byteZ hi]).
Proof.
  intros Hi Hgo Hlo Hhi. cbn [words]. unfold goes_on in Hgo. rewrite Hgo.
  pose proof (lookup_lt_Some _ _ _ Hhi) as Hlt.
  unfold sliceBytes, capacity.
  destruct (Z.leb_spec 0 i); [ | lia ].
  destruct (Z.leb_spec i (i + 2)); [ | lia ].
  destruct (Z.leb_spec (i + 2) (Z.of_nat (length (backing bin)))); [ | lia ].
  cbn [andb]. unfold Uint16. cbn [blen backing].
  replace (i + 2 - i) with 2 by lia. cbn [Z.ltb Z.compare Pos.compare Pos.compare_cont].
  assert (Hd : drop (Z.to_nat i) (backing bin)
               = lo :: hi :: drop (Z.to_nat (i + 2)) (backing bin)).
  { rewrite (drop_S _ lo (Z.to_nat i)) by exact Hlo.
    rewrite (drop_S _ hi (S (Z.to_nat i)))
      by (replace (S (Z.to_nat i)) with (Z.to_nat (i + 1)) by lia; exact Hhi).
    replace (S (S (Z.to_nat i))) with (Z.to_nat (i + 2)) by lia. reflexivity. }
  rewrite Hd, word_of_bytes. reflexivity.
Qed.

(** The loop panics at an index with less than two bytes of capacity left. *)
Lemma words_short inclusive fuel bin i prog :
  goes_on inclusive bin i = true -> capacity bin < i + 2 ->
  words inclusive (S fuel) bin i prog = Panic SliceBoundsOutOfRange.
Proof.
  intros Hgo Hcap. cbn [words]. unfold goes_on in Hgo. rewrite Hgo.
  unfold sliceBytes.
  destruct (Z.leb_spec (i + 2) (capacity bin)); [ lia | ].
  rewrite andb_false_r. reflexivity.
Qed.

Lemma words_stop inclusive fuel bin i prog :
  goes_on inclusive bin i = false ->
  words inclusive fuel bin i prog = Done (Some prog).
Proof.
  intros Hgo. unfold goes_on in Hgo. destruct fuel; cbn [words]; rewrite Hgo;
    reflexivity.
Qed.

(** [n] rounds from the start, over [2 * n] bytes. *)
Lemma words_rounds inclusive bin n :
  forall fuel,
    2 * Z.of_nat n <= capacity bin ->
    (n = 0%nat \/ goes_on inclusive bin (2 * Z.of_nat n - 2) = true) ->
    words inclusive (n + fuel) bin 0 []
      = words inclusive fuel bin (2 * Z.of_nat n)
          (le_pairs (take (2 * n) (backing bin))).
Proof.
  induction n as [|n IH]; intros fuel Hcap Hgo.
  - reflexivity.
  - destruct Hgo as [Hgo|Hgo]; [ discriminate | ].
    assert (Hgo' : forall j, 0 <= j <= 2 * Z.of_nat n ->
              goes_on inclusive bin j = true).
    { intros j Hj. unfold goes_on in *.
      destruct inclusive; [ apply Z.leb_le | apply Z.ltb_lt ];
        [ apply Z.leb_le in Hgo | apply Z.ltb_lt in Hgo ]; lia. }
    replace (S n + fuel)%nat with (n + S fuel)%nat by lia.
    rewrite IH; [ | lia | ].
    2:{ destruct n; [ left; reflexivity | right; apply Hgo'; lia ]. }
    unfold capacity in Hcap.
    destruct (lookup_lt_is_Some_2 (backing bin) (Z.to_nat (2 * Z.of_nat n)))
      as [lo Hlo]; [ lia | ].
    destruct (lookup_lt_is_Some_2 (backing bin) (Z.to_nat (2 * Z.of_nat n + 1)))
      as [hi Hhi]; [ lia | ].
    rewrite (words_round inclusive fuel bin _ _ lo hi); try assumption;
      [ | lia | apply Hgo'; lia ].
    replace (2 * Z.of_nat n + 2) with (2 * Z.of_nat (S n)) by lia.
    f_equal.
    replace (2 * S n)%nat with (S (S (2 * n))) by lia.
    rewrite (take_S_r _ (S (2 * n)) hi)
      by (replace (S (2 * n)) with (Z.to_nat (2 * Z.of_nat n + 1)) by lia;
          exact Hhi).
    rewrite (take_S_r _ (2 * n) lo)
      by (replace (2 * n)%nat with (Z.to_nat (2 * Z.of_nat n)) by lia; exact Hlo).
    rewrite <- app_assoc. cbn [app]. symmetry. apply le_pairs_snoc.
    exists n. rewrite length_take. lia.
Qed.

(** X19.  The loop [for i := 0; i < len(bin); i += 2] over a file of even
    length gives the words its bytes spell, two bytes to a word and the low
    byte first: half as many words as bytes, each a 16-bit value. *)
Theorem load_even fuel bin n :
  blen bin = 2 * Z.of_nat n -> blen bin <= capacity bin -> (n <= fuel)%nat ->
  words false fuel bin 0 [] = Done (Some (le_pairs (take (2 * n) (backing bin))))
  /\ length (le_pairs (take (2 * n) (backing bin))) = n
  /\ Forall is_u16 (le_pairs (take (2 * n) (backing bin))).
Proof.
  intros Hlen Hcap Hfuel. split; [ | split ].
  - replace fuel with (n + (fuel - n))%nat by lia.
    rewrite words_rounds.
    + apply words_stop. unfold goes_on. apply Z.ltb_ge. lia.
    + lia.
    + destruct n; [ left; reflexivity | right ].
      unfold goes_on. apply Z.ltb_lt. lia.
  - rewrite le_pairs_length, length_take. unfold capacity in Hcap.
    rewrite Nat.min_l by lia. rewrite (Nat.mul_comm 2 n).
    apply Nat.div_mul. lia.
  - apply le_pairs_u16.
Qed.

Lemma load_even_witness :
  let bin := mkBytes [Byte.x15; Byte.x00; Byte.x00; Byte.x00] 4 in
  words false 5 bin 0 [] = Done (Some (le_pairs (take (2 * 2) (backing bin))))
  /\ length (le_pairs (take (2 * 2) (backing bin))) = 2%nat
  /\ Forall is_u16 (le_pairs (take (2 * 2) (backing bin))).
Proof.
  intros bin. apply (load_even 5 bin 2).
  - reflexivity.
  - subst bin. unfold capacity. cbn. lia.
  - lia.
Defined.

(** X20.  On a file of odd length the same loop takes its last word from
    the last byte and the byte after the end of the file: it panics with
    slice bounds out of range when the slice has no capacity beyond its
    length, and otherwise the spare byte of the backing array becomes the
    high byte of a last word. *)
Theorem load_odd fuel bin n :
  blen bin = 2 * Z.of_nat n + 1 -> blen bin <= capacity bin -> (n < fuel)%nat ->
  (capacity bin = blen bin ->
   words false fuel bin 0 [] = Panic SliceBoundsOutOfRange)
  /\ (blen bin < capacity bin ->
      words false fuel bin 0 []
        = Done (Some (le_pairs (take (2 * n + 2) (backing bin))))).
Proof.
  intros Hlen Hcap Hfuel. split; intros Hc.
  - replace fuel with (n + S (fuel - n - 1))%nat by lia.
    rewrite words_rounds.
    + apply words_short; [ unfold goes_on; apply Z.ltb_lt; lia | lia ].
    + lia.
    + destruct n; [ left; reflexivity | right ].
      unfold goes_on. apply Z.ltb_lt. lia.
  - replace fuel with (S n + (fuel - S n))%nat by lia.
    replace (2 * n + 2)%nat with (2 * S n)%nat by lia.
    rewrite words_rounds.
    + apply words_stop. unfold goes_on. apply Z.ltb_ge. lia.
    + lia.
    + right. unfold goes_on. apply Z.ltb_lt. lia.
Qed.

Lemma load_odd_witness :
  let bin := mkBytes [Byte.x15; Byte.x00; Byte.x00] 3 in
  (capacity bin = blen bin ->
   words false 2 bin 0 [] = Panic SliceBoundsOutOfRange)
  /\ (blen bin < capacity bin ->
      words false 2 bin 0 []
        = Done (Some (le_pairs (take (2 * 1 + 2) (backing bin))))).
Proof.
  intros bin. apply (load_odd 2 bin 1).
  - reflexivity.
  - subst bin. unfold capacity. cbn. lia.
  - lia.
Defined.

(** X21.  The loop of the earlier main.go, [for i := 0; i <= len(bin);
    i += 2], never gives just the words of a file of even length: it goes
    one round further, at the index that is the length, and there it panics
    when fewer than two bytes of capacity are left, and otherwise appends a
    word made of the two bytes after the end of the file. *)
Theorem load_inclusive_even fuel bin n :
  blen bin = 2 * Z.of_nat n -> blen bin <= capacity bin -> (n < fuel)%nat ->
  (capacity bin < blen bin + 2 ->
   words true fuel bin 0 [] = Panic SliceBoundsOutOfRange)
  /\ (blen bin + 2 <= capacity bin ->
      words true fuel bin 0 []
        = Done (Some (le_pairs (take (2 * n + 2) (backing bin))))
      /\ length (le_pairs (take (2 * n + 2) (backing bin))) = S n).
Proof.
  intros Hlen Hcap Hfuel. split; intros Hc.
  - replace fuel with (n + S (fuel - n - 1))%nat by lia.
    rewrite words_rounds.
    + apply words_short; [ unfold goes_on; apply Z.leb_le; lia | lia ].
    + lia.
    + destruct n; [ left; reflexivity | right ].
      unfold goes_on. apply Z.leb_le. lia.
  - split.
    + replace fuel with (S n + (fuel - S n))%nat by lia.
      replace (2 * n + 2)%nat with (2 * S n)%nat by lia.
      rewrite words_rounds.
      * apply words_stop. unfold goes_on. apply Z.leb_gt. lia.
      * lia.
      * right. unfold goes_on. apply Z.leb_le. lia.
    + rewrite le_pairs_length, length_take. unfold capacity in Hc.
      rewrite Nat.min_l by lia.
      replace (2 * n + 2)%nat with (S n * 2)%nat by lia.
      apply Nat.div_mul. lia.
Qed.

Lemma load_inclusive_even_witness :
  let bin := mkBytes [Byte.x15; Byte.x00] 2 in
  (capacity bin < blen bin + 2 ->
   words true 2 bin 0 [] = Panic SliceBoundsOutOfRange)
  /\ (blen bin + 2 <= capacity bin ->
      words true 2 bin 0 []
        = Done (Some (le_pairs (take (2 * 1 + 2) (backing bin))))
      /\ length (le_pairs (take (2 * 1 + 2) (backing bin))) = 2%nat).
Proof.
  intros bin. apply (load_inclusive_even 2 bin 1).
  - reflexivity.
  - subst bin. unfold capacity. cbn. lia.
  - lia.
Defined.

Lemma Uint16_u16 b val : Uint16 b = Done val -> is_u16 val.
Proof.
  unfold Uint16. destruct (1 <? blen b); [ | discriminate ].
  destruct (backing b) as [|lo [|hi rest]]; try discriminate.
  intros E; inversion E. rewrite word_of_bytes. apply word_is_u16.
Qed.

Lemma words_u16 inclusive fuel bin :
  forall i prog0 prog,
    Forall is_u16 prog0 ->
    words inclusive fuel bin i prog0 = Done (Some prog) ->
    Forall is_u16 prog.
Proof.
  induction fuel as [|fuel IH]; intros i prog0 prog H0; cbn [words].
  - destruct (if inclusive then i <=? blen bin else i <? blen bin);
      intros E; inversion E; subst; exact H0.
  - destruct (if inclusive then i <=? blen bin else i <? blen bin).
    + destruct (sliceBytes bin i (i + 2)) as [b|p]; [ | discriminate ].
      destruct (Uint16 b) as [val|p] eqn:Hv; [ | discriminate ].
      apply IH. apply Forall_app. split; [ exact H0 | ].
      apply Forall_singleton. exact (Uint16_u16 _ _ Hv).
    + intros E; inversion E; subst; exact H0.
Qed.

(** X22.  Whatever the file, the words the loader hands to [NewMachine] are
    16-bit values, and so every state the run reaches from them keeps the
    shape of a machine: 32768 cells, eight registers, 16-bit values
    everywhere. *)
Theorem loaded_machine_shape inclusive fuel bin prog :
  words inclusive fuel bin 0 [] = Done (Some prog) ->
  Forall is_u16 prog
  /\ forall stdin m, reachable prog stdin m -> wf m.
Proof.
  intros H. assert (Hp : Forall is_u16 prog).
  { apply (words_u16 inclusive fuel bin 0 [] prog); [ constructor | exact H ]. }
  split; [ exact Hp | ]. intros stdin m Hr. exact (reachable_wf _ _ _ Hp Hr).
Qed.

Lemma loaded_machine_shape_witness :
  let bin := mkBytes [Byte.x15; Byte.x00; Byte.x00; Byte.x00] 4 in
  Forall is_u16 [21; 0]
  /\ forall stdin m, reachable [21; 0] stdin m -> wf m.
Proof.
  intros bin. apply (loaded_machine_shape false 5 bin [21; 0]). reflexivity.
Defined.

(** * The earlier machine *)

(** X23.  The earlier stack does not give back what is pushed: its [Pop]
    cuts the slice two short.  On a stack whose length field matches its
    data, a [Pop] right after a [Push] panics when the stack was empty;
    otherwise it returns the value pushed, and drops the element below it as
    well while the length field counts it still, after which every [Pop]
    panics with an index out of range, whatever is pushed in between. *)
Theorem old_pop_cuts_two s v :
  SynacorOld.len s = Z.of_nat (length (SynacorOld.data s)) ->
  (SynacorOld.len s = 0 ->
   SynacorOld.Pop (SynacorOld.Push v s) = Panic SliceBoundsOutOfRange)
  /\ (0 < SynacorOld.len s ->
      exists s',
        SynacorOld.Pop (SynacorOld.Push v s) = Done (v, s')
        /\ SynacorOld.data s'
           = take (length (SynacorOld.data s) - 1) (SynacorOld.data s)
        /\ SynacorOld.len s' = SynacorOld.len s
        /\ forall vs,
             SynacorOld.Pop (foldl (fun s x => SynacorOld.Push x s) s' vs)
             = Panic IndexOutOfRange).
Proof.
  destruct s as [d l]. cbn [SynacorOld.len SynacorOld.data]. intros ->.
  unfold SynacorOld.Pop, SynacorOld.Push. cbn [SynacorOld.len SynacorOld.data].
  rewrite length_app. cbn [length].
  destruct (Z.leb_spec 0 (Z.of_nat (length d) + 1 - 1)); [ | lia ].
  destruct (Z.ltb_spec (Z.of_nat (length d) + 1 - 1) (Z.of_nat (length d + 1)));
    [ | lia ].
  cbn [andb]. split.
  - intros Hzero. destruct (Z.leb_spec 0 (Z.of_nat (length d) + 1 - 2)); [ lia | ].
    reflexivity.
  - intros Hpos. destruct (Z.leb_spec 0 (Z.of_nat (length d) + 1 - 2)); [ | lia ].
    eexists. split; [ | split; [ | split ] ].
    + replace (Z.to_nat (Z.of_nat (length d) + 1 - 1)) with (length d) by lia.
      rewrite app_nth2, Nat.sub_diag by lia. reflexivity.
    + cbn [SynacorOld.data].
      replace (Z.to_nat (Z.of_nat (length d) + 1 - 2)) with (length d - 1)%nat
        by lia.
      apply take_app_le. lia.
    + cbn [SynacorOld.len]. lia.
    + intros vs.
      set (s' := SynacorOld.mkStack _ _).
      assert (Hinv : forall vs t,
                SynacorOld.len t = Z.of_nat (length (SynacorOld.data t)) + 1 ->
                SynacorOld.len (foldl (fun s x => SynacorOld.Push x s) t vs)
                = Z.of_nat (length (SynacorOld.data
                     (foldl (fun s x => SynacorOld.Push x s) t vs))) + 1).
      { clear. induction vs as [|x vs IH]; intros t Ht; [ exact Ht | ].
        cbn [foldl]. apply IH. unfold SynacorOld.Push.
        cbn [SynacorOld.len SynacorOld.data]. rewrite length_app. cbn. lia. }
      assert (Hs' : SynacorOld.len s'
                    = Z.of_nat (length (SynacorOld.data s')) + 1).
      { subst s'. cbn [SynacorOld.len SynacorOld.data].
        rewrite length_take, length_app. cbn [length]. lia. }
      specialize (Hinv vs s' Hs').
      destruct (foldl _ s' vs) as [d2 l2]. cbn [SynacorOld.len SynacorOld.data] in *.
      subst l2.
      destruct (Z.ltb_spec (Z.of_nat (length d2) + 1 - 1) (Z.of_nat (length d2)));
        [ lia | ].
      rewrite andb_false_r. reflexivity.
Qed.

Lemma old_pop_cuts_two_witness :
  let s := SynacorOld.Push 5 SynacorOld.NewStack in
  (SynacorOld.len s = 0 ->
   SynacorOld.Pop (SynacorOld.Push 6 s) = Panic SliceBoundsOutOfRange)
  /\ (0 < SynacorOld.len s ->
      exists s',
        SynacorOld.Pop (SynacorOld.Push 6 s) = Done (6, s')
        /\ SynacorOld.data s'
           = take (length (SynacorOld.data s) - 1) (SynacorOld.data s)
        /\ SynacorOld.len s' = SynacorOld.len s
        /\ forall vs,
             SynacorOld.Pop (foldl (fun s x => SynacorOld.Push x s) s' vs)
             = Panic IndexOutOfRange).
Proof.
  intros s. apply (old_pop_cuts_two s 6). reflexivity.
Defined.

(** X24.  The earlier operand resolution, [maybeIndirectArgs], differs from
    [readArg]: it takes the word 32767 for a register reference and panics
    on it, reading register 8; it reads the registers in reverse, register
    [7 - r] for the word [32768 + r]; words below 32767 stand for
    themselves, and words above 32775 give the value 0 and an error. *)
Theorem old_operand_resolution m :
  length (SynacorOld.regs m) = 8%nat ->
  (forall v, v < 32767 ->
     SynacorOld.maybeIndirectArgs v m = Done (v, None))
  /\ SynacorOld.maybeIndirectArgs 32767 m = Panic IndexOutOfRange
  /\ (forall r, 0 <= r < 8 ->
      exists x, SynacorOld.regs m !! Z.to_nat (7 - r) = Some x
        /\ SynacorOld.maybeIndirectArgs (32768 + r) m = Done (x, None))
  /\ (forall v, 32775 < v ->
      SynacorOld.maybeIndirectArgs v m
      = Done (0, Some "Invalid argument"%string)).
Proof.
  intros Hr. unfold SynacorOld.maybeIndirectArgs, MAX_REG, MAX_15BIT.
  split; [ | split; [ | split ] ].
  - intros v Hv. destruct (Z.ltb_spec v 32767); [ reflexivity | lia ].
  - change (32767 <? 32767) with false. change (32767 <=? 32767 + 8) with true.
    change (Z.to_nat (u16 (32767 + 8 - 32767))) with 8%nat. cbv iota.
    rewrite lookup_ge_None_2 by (rewrite Hr; lia). reflexivity.
  - intros r Hrng.
    destruct (lookup_lt_is_Some_2 (SynacorOld.regs m) (Z.to_nat (7 - r)))
      as [x Hx]; [ rewrite Hr; lia | ].
    exists x. split; [ exact Hx | ].
    destruct (Z.ltb_spec (32768 + r) 32767); [ lia | ].
    destruct (Z.leb_spec (32768 + r) (32767 + 8)); [ | lia ].
    replace (32767 + 8 - (32768 + r)) with (7 - r) by lia.
    rewrite u16_small by lia. rewrite Hx. reflexivity.
  - intros v Hv. destruct (Z.ltb_spec v 32767); [ lia | ].
    destruct (Z.leb_spec v (32767 + 8)); [ lia | reflexivity ].
Qed.

Lemma old_operand_resolution_witness :
  let m := SynacorOld.NewMachine [] in
  (forall v, v < 32767 ->
     SynacorOld.maybeIndirectArgs v m = Done (v, None))
  /\ SynacorOld.maybeIndirectArgs 32767 m = Panic IndexOutOfRange
  /\ (forall r, 0 <= r < 8 ->
      exists x, SynacorOld.regs m !! Z.to_nat (7 - r) = Some x
        /\ SynacorOld.maybeIndirectArgs (32768 + r) m = Done (x, None))
  /\ (forall v, 32775 < v ->
      SynacorOld.maybeIndirectArgs v m
      = Done (0, Some "Invalid argument"%string)).
Proof.
  intros m. apply (old_operand_resolution m). reflexivity.
Defined.

(** ** The earlier [Step] beside the later one *)

Lemma opcode_of_inj w w' i :
  opcode_of w = Some i -> opcode_of w' = Some i -> w = w'.
Proof.
  assert (Hrange : forall x j, opcode_of x = Some j -> 0 <= x <= 21).
  { intros x j H. destruct (Z.ltb_spec x 0); [ | destruct (Z.ltb_spec 21 x) ];
      [ rewrite opcode_of_None in H by lia; discriminate
      | rewrite opcode_of_None in H by lia; discriminate | lia ]. }
  intros H H'. pose proof (Hrange _ _ H). pose proof (Hrange _ _ H').
  assert (Hw : w = 0 \/ w = 1 \/ w = 2 \/ w = 3 \/ w = 4 \/ w = 5 \/ w = 6 \/ w = 7 \/ w = 8 \/ w = 9 \/ w = 10 \/ w = 11 \/ w = 12 \/ w = 13 \/ w = 14 \/ w = 15 \/ w = 16 \/ w = 17 \/ w = 18 \/ w = 19 \/ w = 20 \/ w = 21) by lia.
  assert (Hw' : w' = 0 \/ w' = 1 \/ w' = 2 \/ w' = 3 \/ w' = 4 \/ w' = 5 \/ w' = 6 \/ w' = 7 \/ w' = 8 \/ w' = 9 \/ w' = 10 \/ w' = 11 \/ w' = 12 \/ w' = 13 \/ w' = 14 \/ w' = 15 \/ w' = 16 \/ w' = 17 \/ w' = 18 \/ w' = 19 \/ w' = 20 \/ w' = 21) by lia.
  clear H0 H1.
  repeat (destruct Hw as [->|Hw]); try subst w;
    cbn in H; injection H as <-;
    repeat (destruct Hw' as [->|Hw']); try subst w';
    first [ reflexivity | discriminate H' ].
Qed.

Lemma old_getArgs_Done (mo : SynacorOld.Machine) op :
  length (SynacorOld.memory mo) = Z.to_nat 32768 ->
  0 <= SynacorOld.pc mo ->
  SynacorOld.pc mo + Z.of_nat (SynacorOld.argCount op) < 32768 ->
  SynacorOld.getArgs op mo
  = Done (take (SynacorOld.argCount op)
            (drop (Z.to_nat (SynacorOld.pc mo + 1)) (SynacorOld.memory mo))).
Proof.
  intros Hlen Hp Hlt. unfold SynacorOld.getArgs.
  assert (Hc : (SynacorOld.argCount op <= 2)%nat).
  { unfold SynacorOld.argCount. destruct (opcode_of op) as [[]|]; lia. }
  assert (Hcell : forall k, 0 < k -> SynacorOld.pc mo + k < 32768 ->
            exists w, SynacorOld.memory mo !! Z.to_nat (SynacorOld.pc mo + k) = Some w).
  { intros k Hk Hk'. apply lookup_lt_is_Some_2. rewrite Hlen. lia. }
  destruct (SynacorOld.argCount op) as [|[|[|n]]]; [ | | | lia ].
  - reflexivity.
  - destruct (Hcell 1 ltac:(lia) ltac:(lia)) as [w Hw].
    cbn [SynacorOld.getArgsFrom]. rewrite (u16_small 1) by lia.
    rewrite u16_small by lia. rewrite Hw. cbn [app].
    erewrite take_S_r by (rewrite lookup_drop, Nat.add_0_r; exact Hw).
    reflexivity.
  - destruct (Hcell 1 ltac:(lia) ltac:(lia)) as [w Hw].
    destruct (Hcell (1 + 1) ltac:(lia) ltac:(lia)) as [w2 Hw2].
    cbn [SynacorOld.getArgsFrom]. rewrite (u16_small 1), (u16_small (1 + 1)) by lia.
    rewrite !u16_small by lia. rewrite Hw. rewrite Hw2. cbn [app].
    erewrite take_S_r;
      [ | rewrite lookup_drop;
          replace (Z.to_nat (SynacorOld.pc mo + 1) + 1)%nat
            with (Z.to_nat (SynacorOld.pc mo + (1 + 1))) by lia; exact Hw2 ].
    erewrite take_S_r by (rewrite lookup_drop, Nat.add_0_r; exact Hw).
    reflexivity.
Qed.

Lemma Step_HALT m :
  wf m -> memory m !! Z.to_nat (pc m) = Some 0 ->
  Step m = Done (tt, set_state HALTED m).
Proof.
  intros Hwf Hop.
  pose proof (lookup_lt_Some _ _ _ Hop) as Hlt. rewrite (wf_memory _ Hwf) in Hlt.
  assert (Hf := fetch_eq m 0 Hwf Hop ltac:(cbn; lia)).
  rewrite (Step_fetch _ _ _ Hf). reflexivity.
Qed.

Lemma Step_NOOP m :
  wf m -> memory m !! Z.to_nat (pc m) = Some 21 ->
  Step m = Done (tt, set_pc (pc m + 1) m).
Proof.
  intros Hwf Hop.
  pose proof (lookup_lt_Some _ _ _ Hop) as Hlt. rewrite (wf_memory _ Hwf) in Hlt.
  pose proof (wf_pc _ Hwf) as Hp. unfold is_u16 in Hp.
  assert (Hf := fetch_eq m 21 Hwf Hop ltac:(cbn; lia)).
  rewrite (Step_fetch _ _ _ Hf). unfold execute; cbn [opcode_of]. run.
  unfold advance, modify, nextProgramCounter. cbn [argsForOp opcode_of opcode_args].
  rewrite Z.add_0_r, !(u16_small (pc m + 1)) by lia. reflexivity.
Qed.

Lemma fetch_OUT m a :
  wf m -> memory m !! Z.to_nat (pc m) = Some 19 ->
  memory m !! Z.to_nat (pc m + 1) = Some a ->
  fetch m = Done ((19, [a]), m).
Proof.
  intros Hwf Hop Ha.
  pose proof (lookup_lt_Some _ _ _ Ha) as Hlt. rewrite (wf_memory _ Hwf) in Hlt.
  pose proof (wf_pc _ Hwf) as Hp. unfold is_u16 in Hp.
  rewrite (fetch_eq m 19 Hwf Hop) by (cbn; lia).
  change (Z.to_nat (argsForOp 19)) with 1%nat.
  erewrite take_S_r by (rewrite lookup_drop, Nat.add_0_r; exact Ha).
  reflexivity.
Qed.

Lemma old_Step_OUT (mo : SynacorOld.Machine) a :
  length (SynacorOld.memory mo) = Z.to_nat 32768 ->
  0 <= SynacorOld.pc mo ->
  SynacorOld.memory mo !! Z.to_nat (SynacorOld.pc mo) = Some 19 ->
  SynacorOld.memory mo !! Z.to_nat (SynacorOld.pc mo + 1) = Some a ->
  SynacorOld.Step mo
  = Done (SynacorOld.set_pc (SynacorOld.pc mo + 2)
            (SynacorOld.set_stdout (SynacorOld.stdout mo ++ [fmtC a]) mo)).
Proof.
  intros Hlen Hp Hop Ha.
  pose proof (lookup_lt_Some _ _ _ Ha) as Hlt. rewrite Hlen in Hlt.
  unfold SynacorOld.Step. rewrite Hop.
  rewrite old_getArgs_Done by (cbn; lia).
  change (SynacorOld.argCount 19) with 1%nat.
  erewrite take_S_r by (rewrite lookup_drop, Nat.add_0_r; exact Ha).
  cbn [opcode_of take app lookup list_lookup].
  unfold SynacorOld.updateProgramCounter. cbn [opcode_of].
  cbn [SynacorOld.pc SynacorOld.set_stdout].
  rewrite (u16_small (1 + 1)) by lia. rewrite u16_small by lia.
  replace (SynacorOld.pc mo + (1 + 1)) with (SynacorOld.pc mo + 2) by lia.
  reflexivity.
Qed.

(** X25.  On HALT, on NOOP and on OUT with a literal operand the earlier
    machine and the later one do the same: from states with the same
    memory, registers, program counter, state and output, a step of each
    completes and the two agree on all five again. *)
Theorem old_step_agrees m mo i :
  wf m -> view m = view_old mo -> instr_at m = Some i ->
  i = HALT \/ i = NOOP
  \/ (i = OUT /\ exists a, memory m !! Z.to_nat (pc m + 1) = Some a /\ a <= 32767) ->
  exists m' mo',
    Step m = Done (tt, m') /\ SynacorOld.Step mo = Done mo'
    /\ view m' = view_old mo'.
Proof.
  intros Hwf Hv Hi Hcases.
  unfold view, view_old in Hv. destruct mo as [mem rg p st sta out].
  cbn [SynacorOld.memory SynacorOld.regs SynacorOld.pc SynacorOld.state
       SynacorOld.stdout] in Hv.
  injection Hv as <- <- <- <- <-.
  unfold instr_at in Hi.
  destruct (memory m !! Z.to_nat (pc m)) as [op|] eqn:Hop; [ | discriminate ].
  pose proof (lookup_lt_Some _ _ _ Hop) as Hlt. rewrite (wf_memory _ Hwf) in Hlt.
  pose proof (wf_pc _ Hwf) as Hpc. unfold is_u16 in Hpc.
  pose proof (wf_memory _ Hwf) as Hlen.
  destruct Hcases as [->|[->|(-> & a & Ha & Hle)]];
    [ pose proof (opcode_of_inj op 0 _ Hi eq_refl)
    | pose proof (opcode_of_inj op 21 _ Hi eq_refl)
    | pose proof (opcode_of_inj op 19 _ Hi eq_refl) ]; subst op.
  - rewrite (Step_HALT _ Hwf Hop). eexists _, _. split; [ reflexivity | ].
    unfold SynacorOld.Step. cbn [SynacorOld.memory SynacorOld.pc].
    rewrite Hop. split; reflexivity.
  - rewrite (Step_NOOP _ Hwf Hop). eexists _, _. split; [ reflexivity | ].
    unfold SynacorOld.Step. cbn [SynacorOld.memory SynacorOld.pc].
    rewrite Hop. split; [ reflexivity | ].
    unfold view, view_old, SynacorOld.updateProgramCounter.
    cbn [opcode_of SynacorOld.memory SynacorOld.regs SynacorOld.pc
         SynacorOld.state SynacorOld.stdout SynacorOld.set_pc
         memory regs pc state stdout set_pc].
    rewrite Z.add_0_r, (u16_small 1), (u16_small (pc m + 1)) by lia. reflexivity.
  - rewrite (Step_OUT m a a Hwf (fetch_OUT _ _ Hwf Hop Ha) (readArg_value _ _ Hle)).
    eexists _, _. split; [ reflexivity | ].
    rewrite (old_Step_OUT _ a);
      cbn [SynacorOld.memory SynacorOld.pc];
      [ | assumption | lia | assumption | assumption ].
    split; reflexivity.
Qed.

Lemma old_step_agrees_witness :
  let m := NewMachine [19; 65] [] in
  let mo := SynacorOld.NewMachine [19; 65] in
  exists m' mo',
    Step m = Done (tt, m') /\ SynacorOld.Step mo = Done mo'
    /\ view m' = view_old mo'.
Proof.
  intros m mo. apply (old_step_agrees m mo OUT).
  - apply NewMachine_wf. words.
  - reflexivity.
  - reflexivity.
  - right; right. split; [ reflexivity | ]. exists 65. split; [ reflexivity | lia ].
Defined.

(** X26.  The earlier OUT does not look at the registers: on the operand
    [32768 + r] it prints the character of the operand word itself, where
    the later machine prints the character of what register [r] holds; both
    move two cells on. *)
Theorem old_out_prints_the_operand_word m mo r x :
  wf m -> view m = view_old mo -> instr_at m = Some OUT ->
  memory m !! Z.to_nat (pc m + 1) = Some (32768 + r) -> 0 <= r < 8 ->
  regs m !! Z.to_nat r = Some x ->
  exists m' mo',
    Step m = Done (tt, m') /\ SynacorOld.Step mo = Done mo'
    /\ stdout m' = stdout m ++ [fmtC x]
    /\ SynacorOld.stdout mo' = stdout m ++ [fmtC (32768 + r)]
    /\ pc m' = pc m + 2 /\ SynacorOld.pc mo' = pc m + 2.
Proof.
  intros Hwf Hv Hi Ha Hr Hx.
  unfold view, view_old in Hv. destruct mo as [mem rg p st sta out].
  cbn [SynacorOld.memory SynacorOld.regs SynacorOld.pc SynacorOld.state
       SynacorOld.stdout] in Hv.
  injection Hv as <- <- <- <- <-.
  unfold instr_at in Hi.
  destruct (memory m !! Z.to_nat (pc m)) as [op|] eqn:Hop; [ | discriminate ].
  pose proof (opcode_of_inj op 19 _ Hi eq_refl). subst op.
  pose proof (wf_pc _ Hwf) as Hpc. unfold is_u16 in Hpc.
  assert (Hread : readArg (32768 + r) m = Done (x, m)).
  { rewrite readArg_reg by lia. apply index_eq.
    unfold decipherReg, MAX_15BIT.
    rewrite (u16_small (32768 + r - 32767)) by lia.
    rewrite u16_small by lia.
    replace (32768 + r - 32767 - 1) with r by lia. exact Hx. }
  rewrite (Step_OUT m _ x Hwf (fetch_OUT _ _ Hwf Hop Ha) Hread).
  rewrite (old_Step_OUT _ (32768 + r));
    cbn [SynacorOld.memory SynacorOld.pc];
    [ | exact (wf_memory _ Hwf) | lia | assumption | assumption ].
  eexists _, _. repeat split; reflexivity.
Qed.

Lemma old_out_prints_the_operand_word_witness :
  let m := NewMachine [19; 32769] [] in
  let mo := SynacorOld.NewMachine [19; 32769] in
  exists m' mo',
    Step m = Done (tt, m') /\ SynacorOld.Step mo = Done mo'
    /\ stdout m' = stdout m ++ [fmtC 0]
    /\ SynacorOld.stdout mo' = stdout m ++ [fmtC (32768 + 1)]
    /\ pc m' = pc m + 2 /\ SynacorOld.pc mo' = pc m + 2.
Proof.
  intros m mo. apply (old_out_prints_the_operand_word m mo 1 0).
  - apply NewMachine_wf. words.
  - reflexivity.
  - reflexivity.
  - reflexivity.
  - lia.
  - reflexivity.
Defined.

(** X27.  Every instruction but HALT, OUT and NOOP stops the earlier
    machine: when the operands [getArgs] fetches lie inside memory, [Run]
    ends after that one step in state HALTED, with the line naming the
    instruction printed and the program counter, memory, registers and
    stack as they were; when an operand lies beyond the last cell the step
    panics instead, before anything is printed. *)
Theorem old_run_stops_at_unimplemented (mo : SynacorOld.Machine) op fuel :
  length (SynacorOld.memory mo) = Z.to_nat 32768 ->
  0 <= SynacorOld.pc mo ->
  SynacorOld.memory mo !! Z.to_nat (SynacorOld.pc mo) = Some op ->
  op <> 0 -> op <> 19 -> op <> 21 ->
  SynacorOld.state mo <> HALTED ->
  (SynacorOld.pc mo + Z.of_nat (SynacorOld.argCount op) < 32768 ->
   SynacorOld.Run (S fuel) mo
   = Done (Some (SynacorOld.mkMachine
                   (SynacorOld.memory mo) (SynacorOld.regs mo)
                   (SynacorOld.pc mo) (SynacorOld.stack mo) HALTED
                   (SynacorOld.stdout mo
                      ++ runes (SynacorOld.unimplemented op)))))
  /\ (32768 <= SynacorOld.pc mo + Z.of_nat (SynacorOld.argCount op) ->
      SynacorOld.Step mo = Panic IndexOutOfRange).
Proof.
  intros Hlen Hp Hop H0 H19 H21 Hst.
  pose proof (lookup_lt_Some _ _ _ Hop) as Hlt. rewrite Hlen in Hlt.
  assert (Hsw : forall args : list Z,
            match opcode_of op with
            | Some HALT => Done (SynacorOld.Halt mo)
            | Some OUT =>
                match args !! 0%nat with
                | Some a =>
                    Done (SynacorOld.updateProgramCounter op
                            (SynacorOld.set_stdout
                               (SynacorOld.stdout mo ++ [fmtC a]) mo))
                | None => Panic IndexOutOfRange
                end
            | Some NOOP => Done (SynacorOld.updateProgramCounter op mo)
            | _ =>
                Done (SynacorOld.set_state HALTED
                        (SynacorOld.set_stdout
                           (SynacorOld.stdout mo
                              ++ runes (SynacorOld.unimplemented op)) mo))
            end
            = Done (SynacorOld.set_state HALTED
                      (SynacorOld.set_stdout
                         (SynacorOld.stdout mo
                            ++ runes (SynacorOld.unimplemented op)) mo))).
  { intros args. destruct (opcode_of op) as [i|] eqn:Hi; [ | reflexivity ].
    destruct i; try reflexivity;
      [ pose proof (opcode_of_inj op 0 _ Hi eq_refl)
      | pose proof (opcode_of_inj op 19 _ Hi eq_refl)
      | pose proof (opcode_of_inj op 21 _ Hi eq_refl) ]; contradiction. }
  split.
  - intros Hfit. cbn [SynacorOld.Run]. unfold SynacorOld.Halted at 1.
    destruct (SynacorOld.state mo) eqn:Est; [ | contradiction | ].
    all: unfold SynacorOld.Step; rewrite Hop;
      rewrite (old_getArgs_Done mo op Hlen Hp Hfit), Hsw;
      destruct fuel; reflexivity.
  - intros Hout. unfold SynacorOld.Step. rewrite Hop.
    unfold SynacorOld.getArgs.
    assert (Hc : (SynacorOld.argCount op <= 2)%nat).
    { unfold SynacorOld.argCount. destruct (opcode_of op) as [[]|]; lia. }
    destruct (SynacorOld.argCount op) as [|[|[|n]]]; [ lia | | | lia ].
    + cbn [SynacorOld.getArgsFrom]. rewrite (u16_small 1) by lia.
      rewrite u16_small by lia.
      rewrite lookup_ge_None_2 by (rewrite Hlen; lia). reflexivity.
    + cbn [SynacorOld.getArgsFrom].
      rewrite (u16_small 1), (u16_small (1 + 1)) by lia.
      rewrite !u16_small by lia.
      destruct (SynacorOld.memory mo !! Z.to_nat (SynacorOld.pc mo + 1)) eqn:E1;
        [ | reflexivity ].
      rewrite lookup_ge_None_2 by (rewrite Hlen; lia). reflexivity.
Qed.

Lemma old_run_stops_at_unimplemented_witness :
  let mo := SynacorOld.NewMachine [6; 0] in
  (SynacorOld.pc mo + Z.of_nat (SynacorOld.argCount 6) < 32768 ->
   SynacorOld.Run 1 mo
   = Done (Some (SynacorOld.mkMachine
                   (SynacorOld.memory mo) (SynacorOld.regs mo)
                   (SynacorOld.pc mo) (SynacorOld.stack mo) HALTED
                   (SynacorOld.stdout mo
                      ++ runes (SynacorOld.unimplemented 6)))))
  /\ (32768 <= SynacorOld.pc mo + Z.of_nat (SynacorOld.argCount 6) ->
      SynacorOld.Step mo = Panic IndexOutOfRange).
Proof.
  intros mo. apply (old_run_stops_at_unimplemented mo 6 0).
  - reflexivity.
  - cbn. lia.
  - reflexivity.
  - lia.
  - lia.
  - lia.
  - discriminate.
Defined.

End SynacorFacts.
